(** * Hello World GitHub Action: a shallow embedding of [src/index.js]

    The action reads four inputs, formats a greeting, optionally stamps it
    with the current time, optionally fetches repository statistics through
    the GitHub API, and reports outputs, log lines and a summary to its host.

    The embedding keeps the shape of the JavaScript source:
    - JavaScript values that flow through the program are a small inductive
      type with the language's coercions written out;
    - [try]/[catch], [throw] and rejected promises are a result type;
    - every call into [@actions/core] and [@octokit/rest] is a call on an
      explicit host, and the calls a run makes are recorded, in order, in a
      trace that is threaded through the program. *)

From Stdlib Require Import String Ascii List ZArith Bool Lia DecimalString.
Import ListNotations.
Open Scope string_scope.

(** ** JavaScript values *)

(** The values the program handles: the primitives, and plain objects given
    by their own data properties (the parsed JSON of an API response).
    [VNum n] is a number whose value is the integer [n]: the counts and sizes
    of the GitHub API.  Functions, arrays and symbols never reach the code
    modelled here. *)
#[warnings="-register-all"]
Inductive value : Type :=
| VUndefined
| VNull
| VBool (b : bool)
| VNum (n : Z)
| VStr (s : string)
| VObj (props : list (string * value)).

(** What the engine raises by itself on the paths the program can take. *)
Inductive type_error : Type :=
| CannotReadProperty (base : value) (key : string)
    (* [base.key] where [base] is [null] or [undefined] *)
| NotAFunction (key : string)
    (* [base.key()] where the own property [key] is not callable *)
| CannotConvertToPrimitive.
    (* string coercion of an object without a usable [toString] *)

(** Thrown values and rejection reasons are [Error] instances: those created
    by the host libraries ([new Error(message)], Octokit's request errors) and
    the [TypeError]s of the engine.  The text of an engine error is chosen by
    the engine and is a field of the host below. *)
Inductive exn : Type :=
| Error (message : string)
| TypeError (k : type_error).

Inductive result (A : Type) : Type :=
| Ok (a : A)
| Throw (e : exn).
Arguments Ok {A} a.
Arguments Throw {A} e.

Definition rbind {A B : Type} (r : result A) (k : A -> result B) : result B :=
  match r with
  | Ok a => k a
  | Throw e => Throw e
  end.

Notation "'let?' x ':=' r 'in' k" := (rbind r (fun x => k))
  (at level 10, x name, r at level 100, k at level 200).

(** Own-property lookup. *)
Fixpoint own (key : string) (props : list (string * value)) : option value :=
  match props with
  | [] => None
  | (k, v) :: rest => if String.eqb k key then Some v else own key rest
  end.

(** [object.key] for the data properties the program reads ([full_name],
    [stargazers_count], ...), none of which lives on a prototype: a missing
    property reads as [undefined]. *)
Definition own_or_undefined (key : string) (props : list (string * value)) : value :=
  match own key props with Some v => v | None => VUndefined end.

(** ToBoolean. *)
Definition truthy (v : value) : bool :=
  match v with
  | VUndefined | VNull => false
  | VBool b => b
  | VNum n => negb (Z.eqb n 0)
  | VStr s => negb (String.eqb s "")
  | VObj _ => true
  end.

(** [a || b] on values. *)
Definition js_or (a b : value) : value := if truthy a then a else b.

(** ToBoolean of a string; [s || d] on strings. *)
Definition nonempty (s : string) : bool := negb (String.eqb s "").
Definition str_or (s d : string) : string := if nonempty s then s else d.

Definition number_to_string (n : Z) : string :=
  NilZero.string_of_int (Z.to_int n).

Definition bool_to_string (b : bool) : string := if b then "true" else "false".

Definition has_own (key : string) (props : list (string * value)) : bool :=
  match own key props with Some _ => true | None => false end.

(** String coercion inside a template literal, [`${v}`].  A plain object
    goes through [Object.prototype.toString] unless an own data property
    shadows it, in which case no conversion is left and the engine throws. *)
Definition to_str (v : value) : result string :=
  match v with
  | VUndefined => Ok "undefined"
  | VNull => Ok "null"
  | VBool b => Ok (bool_to_string b)
  | VNum n => Ok (number_to_string n)
  | VStr s => Ok s
  | VObj props =>
      if has_own "toString" props then Throw (TypeError CannotConvertToPrimitive)
      else Ok "[object Object]"
  end.

(** The method call [v.toString()]. *)
Definition toString (v : value) : result string :=
  match v with
  | VUndefined | VNull => Throw (TypeError (CannotReadProperty v "toString"))
  | VBool b => Ok (bool_to_string b)
  | VNum n => Ok (number_to_string n)
  | VStr s => Ok s
  | VObj props =>
      if has_own "toString" props then Throw (TypeError (NotAFunction "toString"))
      else Ok "[object Object]"
  end.

(** ** String helpers of the input resolver *)

(** [String.prototype.toUpperCase] and [toLowerCase] on strings of ASCII
    characters, where they change the letters and nothing else.  The names
    the program passes to [getInput] are ASCII.  On other strings the
    methods follow the Unicode case mapping, which is not modelled here: the
    statements about every input name carry the hypothesis that the name is
    ASCII ([ascii_name] below). *)
Definition upper_char (c : ascii) : ascii :=
  let n := nat_of_ascii c in
  if (97 <=? n)%nat && (n <=? 122)%nat then ascii_of_nat (n - 32) else c.

Definition lower_char (c : ascii) : ascii :=
  let n := nat_of_ascii c in
  if (65 <=? n)%nat && (n <=? 90)%nat then ascii_of_nat (n + 32) else c.

Fixpoint map_chars (f : ascii -> ascii) (s : string) : string :=
  match s with
  | EmptyString => EmptyString
  | String c rest => String (f c) (map_chars f rest)
  end.

Definition toUpperCase : string -> string := map_chars upper_char.
Definition toLowerCase : string -> string := map_chars lower_char.

(** [s.replace(/-/g, '_')]. *)
Definition dash_to_underscore (c : ascii) : ascii :=
  if Ascii.eqb c "-"%char then "_"%char else c.
Definition replace_dashes : string -> string := map_chars dash_to_underscore.

(** ** Greeting formatter (index.js, lines 73-75) *)

(** [`${prefix}, ${name}!`] *)
Definition createGreeting (prefix name : value) : result string :=
  let? p := to_str prefix in
  let? n := to_str name in
  Ok (p ++ ", " ++ n ++ "!").

(** ** Data exchanged with the host *)

(** The object built by [getRepoStats] (lines 93-102). *)
Record RepoStats : Type := mkRepoStats {
  name : value;
  stars : value;
  forks : value;
  issues : value;
  language : value;
  size : value;
  created : value;
  updated : value
}.

(** The second argument of [core.setOutput]: a string, or
    [JSON.stringify(repoStats)], whose text is the engine's business. *)
Inductive output_value : Type :=
| OStr (s : string)
| OJson (stats : RepoStats).

(** A cell of the summary table: [{ data, header: true }] or a plain value.
    Every row of [summaryTable] is a two-element array. *)
Inductive cell : Type :=
| HeaderCell (data : string)
| Cell (v : value).

Definition row : Type := (cell * cell)%type.
Definition table : Type := list row.

(** The response of [octokit.rest.repos.get]: an object whose [data] is the
    repository object of the API, given by its own properties. *)
Record response : Type := mkResponse { data : list (string * value) }.

(** Calls that leave the program, as recorded in the trace of a run. *)
Inductive call : Type :=
| Info (message : string)                       (* core.info *)
| Warning (message : string)                    (* core.warning *)
| SetFailed (message : string)                  (* core.setFailed *)
| SetSecret (secret : string)                   (* core.setSecret *)
| SetOutput (key : string) (v : output_value)   (* core.setOutput *)
| ReposGet (auth owner repo : string)
    (* new Octokit({ auth }).rest.repos.get({ owner, repo }) *)
| SummaryWrite (heading : string) (t : table).
    (* core.summary.addHeading(heading).addTable(t).write() *)

Definition trace : Type := list call.

(** The host of a run.  Inputs, environment and repository context are read;
    the clock, the output file, the API and the summary file answer a call
    in view of the calls made before it.  [core.info], [core.warning],
    [core.setFailed] and [core.setSecret] print a workflow command and
    return; [core.setOutput] and the summary writer work on files and may
    throw; the [context.repo] getter throws when the host provides no
    repository; the API call resolves or rejects. *)
Record host : Type := mkHost {
  core_getInput : string -> string;
  process_env : string -> option string;
  context_repo : result (string * string);
  type_error_message : type_error -> string;
  date_now : trace -> string;
  core_setOutput : trace -> string -> output_value -> result unit;
  repos_get : trace -> string -> string -> string -> result response;
  summary_write : trace -> string -> table -> result unit
}.

(** [error.message] *)
Definition message_of (h : host) (e : exn) : string :=
  match e with
  | Error m => m
  | TypeError k => type_error_message h k
  end.

(** ** String literals of the program

    The labels of the statistics (lines 151-154 and 174-177), the heading of
    the summary (line 184), the heading of its log fallback (line 187) and
    the completion line (line 193), as the source file spells them. *)
Definition label_stars : string := "‚≠ê Stars".
Definition label_forks : string := "üç¥ Forks".
Definition label_issues : string := "üêõ Open Issues".
Definition label_language : string := "üìù Language".
Definition summary_heading : string := "üéØ Hello World Action Results".
Definition fallback_heading : string := "üìä Hello World Action Results:".
Definition completion_line : string := "‚úÖ Action completed successfully!".

(** ** Programs that talk to the host *)

(** A computation starts from the calls made so far and yields a value or a
    thrown error, together with the calls made by its end.  Calls made before
    a [throw] stay made. *)
Definition M (A : Type) : Type := trace -> result A * trace.

Definition ret {A : Type} (a : A) : M A := fun tr => (Ok a, tr).

Definition throw {A : Type} (e : exn) : M A := fun tr => (Throw e, tr).

Definition bind {A B : Type} (m : M A) (k : A -> M B) : M B :=
  fun tr =>
    match m tr with
    | (Ok a, tr') => k a tr'
    | (Throw e, tr') => (Throw e, tr')
    end.

(** [try { m } catch (error) { handler error }] *)
Definition try_catch {A : Type} (m : M A) (handler : exn -> M A) : M A :=
  fun tr =>
    match m tr with
    | (Ok a, tr') => (Ok a, tr')
    | (Throw e, tr') => handler e tr'
    end.

(** An expression that may throw, evaluated inside a computation. *)
Definition lift {A : Type} (r : result A) : M A := fun tr => (r, tr).

Declare Scope js_scope.
Delimit Scope js_scope with js.
Notation "x <- m ;; k" := (bind m (fun x => k))
  (at level 61, m at next level, right associativity) : js_scope.
Notation "m ;; k" := (bind m (fun _ => k))
  (at level 61, right associativity) : js_scope.

(** [for (const x of xs) { body x }] *)
Fixpoint for_of {A : Type} (xs : list A) (body : A -> M unit) : M unit :=
  match xs with
  | [] => ret tt
  | x :: rest => bind (body x) (fun _ => for_of rest body)
  end.

Section Action.

Variable h : host.

Local Open Scope js_scope.

(** *** Calls on the host *)

Definition info (message : string) : M unit :=
  fun tr => (Ok tt, (tr ++ [Info message])%list).

Definition warning (message : string) : M unit :=
  fun tr => (Ok tt, (tr ++ [Warning message])%list).

Definition setFailed (message : string) : M unit :=
  fun tr => (Ok tt, (tr ++ [SetFailed message])%list).

Definition setSecret (secret : string) : M unit :=
  fun tr => (Ok tt, (tr ++ [SetSecret secret])%list).

Definition setOutput (key : string) (v : output_value) : M unit :=
  fun tr => (core_setOutput h tr key v, (tr ++ [SetOutput key v])%list).

Definition octokit_repos_get (auth owner repo : string) : M response :=
  fun tr => (repos_get h tr auth owner repo, (tr ++ [ReposGet auth owner repo])%list).

Definition summary_addHeading_addTable_write (heading : string) (t : table) : M unit :=
  fun tr => (summary_write h tr heading t, (tr ++ [SummaryWrite heading t])%list).

(** *** Input resolver (lines 36-57) *)

Definition env_name (name : string) : string :=
  "INPUT_" ++ toUpperCase (replace_dashes name).

Definition getInput (name : string) : string :=
  let value := core_getInput h name in
  if negb (nonempty value) then
    let envName := env_name name in
    str_or (match process_env h envName with Some v => v | None => "" end) ""
  else value.

Definition getBooleanInput (name : string) : bool :=
  let input := toLowerCase (getInput name) in
  String.eqb input "true" || String.eqb input "1" || String.eqb input "yes".

(** *** Time provider (lines 63-65) *)

(** [new Date().toISOString()] *)
Definition getCurrentTime : M string := fun tr => (Ok (date_now h tr), tr).

(** *** Repository stats fetcher (lines 84-107) *)

(** The result is [Some stats] for the object and [None] for [null]. *)
Definition getRepoStats (token owner repo : string) : M (option RepoStats) :=
  try_catch
    (resp <- octokit_repos_get token owner repo ;;
     let repoData := data resp in
     ret (Some {| name := own_or_undefined "full_name" repoData;
                  stars := own_or_undefined "stargazers_count" repoData;
                  forks := own_or_undefined "forks_count" repoData;
                  issues := own_or_undefined "open_issues_count" repoData;
                  language := own_or_undefined "language" repoData;
                  size := own_or_undefined "size" repoData;
                  created := own_or_undefined "created_at" repoData;
                  updated := own_or_undefined "updated_at" repoData |}))
    (fun error =>
       warning ("Failed to fetch repository stats: " ++ message_of h error) ;;
       ret None).

(** *** Run orchestrator (lines 112-197) *)

(** [github.context.repo.owner] and [github.context.repo.repo]: each read
    goes through the [repo] getter of the context. *)
Definition context_repo_owner : M string :=
  lift (let? r := context_repo h in Ok (fst r)).
Definition context_repo_repo : M string :=
  lift (let? r := context_repo h in Ok (snd r)).

(** Lines 136-141; the result is [currentTime]. *)
Definition include_timestamp (includeTime : bool) : M value :=
  if includeTime then
    currentTime <- getCurrentTime ;;
    info ("Current time: " ++ currentTime) ;;
    setOutput "time" (OStr currentTime) ;;
    ret (VStr currentTime)
  else ret VNull.

(** Lines 149-157. *)
Definition report_stats (repoStats : RepoStats) : M unit :=
  s <- lift (to_str (name repoStats)) ;;
  info ("Repository: " ++ s) ;;
  s <- lift (to_str (stars repoStats)) ;;
  info (label_stars ++ ": " ++ s) ;;
  s <- lift (to_str (forks repoStats)) ;;
  info (label_forks ++ ": " ++ s) ;;
  s <- lift (to_str (issues repoStats)) ;;
  info (label_issues ++ ": " ++ s) ;;
  s <- lift (to_str (js_or (language repoStats) (VStr "Unknown"))) ;;
  info (label_language ++ ": " ++ s) ;;
  setOutput "repo-stats" (OJson repoStats).

(** Lines 144-158; the result is [repoStats].  The condition is
    [githubToken && github.context.repo.owner && github.context.repo.repo],
    evaluated left to right with short circuit. *)
Definition fetch_stats (githubToken : string) : M (option RepoStats) :=
  let fetch : M (option RepoStats) :=
    info "Fetching repository statistics..." ;;
    owner <- context_repo_owner ;;
    repo <- context_repo_repo ;;
    repoStats <- getRepoStats githubToken owner repo ;;
    match repoStats with
    | Some stats => report_stats stats ;; ret repoStats
    | None => ret repoStats
    end in
  if nonempty githubToken then
    owner <- context_repo_owner ;;
    if nonempty owner then
      repo <- context_repo_repo ;;
      if nonempty repo then fetch else ret None
    else ret None
  else ret None.

(** Lines 164-180. *)
Definition summaryTable (greeting : string) (includeTime : bool)
    (currentTime : value) (repoStats : option RepoStats) : result table :=
  let? stats_rows :=
    match repoStats with
    | Some stats =>
        let? stars_text := toString (stars stats) in
        let? forks_text := toString (forks stats) in
        let? issues_text := toString (issues stats) in
        Ok [ (Cell (VStr "Repository"), Cell (name stats));
             (Cell (VStr label_stars), Cell (VStr stars_text));
             (Cell (VStr label_forks), Cell (VStr forks_text));
             (Cell (VStr label_issues), Cell (VStr issues_text));
             (Cell (VStr label_language), Cell (js_or (language stats) (VStr "Unknown"))) ]
    | None => Ok []
    end in
  Ok ([ (HeaderCell "Field", HeaderCell "Value");
        (Cell (VStr "Greeting"), Cell (VStr greeting)) ]
      ++ (if includeTime then [ (Cell (VStr "Timestamp"), Cell currentTime) ] else [])
      ++ stats_rows)%list.

(** [`${c}`] for a table cell; a header cell is an object literal. *)
Definition cell_to_str (c : cell) : result string :=
  match c with
  | HeaderCell _ => Ok "[object Object]"
  | Cell v => to_str v
  end.

(** The body of the fallback loop, line 189. *)
Definition log_row (r : row) : M unit :=
  let '(field, value) := r in
  f <- lift (cell_to_str field) ;;
  v <- lift (cell_to_str value) ;;
  info ("   " ++ f ++ ": " ++ v).

(** Lines 183-191. *)
Definition write_summary (t : table) : M unit :=
  try_catch
    (summary_addHeading_addTable_write summary_heading t)
    (fun _ =>
       info fallback_heading ;;
       for_of (skipn 1 t) log_row).

(** The body of the outer [try], lines 114-193. *)
Definition run_steps : M unit :=
  let whoToGreet := str_or (getInput "who-to-greet") "World" in
  let includeTime := getBooleanInput "include-time" in
  let messagePrefix := str_or (getInput "message-prefix") "Hello" in
  let githubToken := getInput "github-token" in
  info "Starting Hello World Action..." ;;
  info ("Who to greet: " ++ whoToGreet) ;;
  info ("Message prefix: " ++ messagePrefix) ;;
  info ("Include time: " ++ bool_to_string includeTime) ;;
  info ("GitHub token provided: " ++ (if nonempty githubToken then "Yes" else "No")) ;;
  greeting <- lift (createGreeting (VStr messagePrefix) (VStr whoToGreet)) ;;
  info ("Generated greeting: " ++ greeting) ;;
  setOutput "message" (OStr greeting) ;;
  currentTime <- include_timestamp includeTime ;;
  repoStats <- fetch_stats githubToken ;;
  setSecret "my-secret-value" ;;
  t <- lift (summaryTable greeting includeTime currentTime repoStats) ;;
  write_summary t ;;
  info completion_line.

Definition run : M unit :=
  try_catch run_steps
    (fun error => setFailed ("Action failed with error: " ++ message_of h error)).

End Action.

(** A run of the action on host [h]: its outcome and the calls it made. *)
Definition outcome (h : host) : result unit := fst (run h []).
Definition calls (h : host) : trace := snd (run h []).

(** * Hosts of the test suite

    The mocked modules of [__tests__/index.test.js], as hosts. *)
Module TestHosts.

(** The default inputs of [beforeEach]. *)
Definition default_inputs (name : string) : string :=
  if String.eqb name "who-to-greet" then "World"
  else if String.eqb name "message-prefix" then "Hello"
  else "".

(** V8's wording of the engine errors. *)
Definition v8_message (k : type_error) : string :=
  match k with
  | CannotReadProperty base key =>
      "Cannot read properties of "
      ++ (match base with VNull => "null" | _ => "undefined" end)
      ++ " (reading '" ++ key ++ "')"
  | NotAFunction key => key ++ " is not a function"
  | CannotConvertToPrimitive => "Cannot convert object to primitive value"
  end.

Definition mockRepoData : list (string * value) :=
  [ ("full_name", VStr "test-owner/test-repo");
    ("stargazers_count", VNum 42);
    ("forks_count", VNum 7);
    ("open_issues_count", VNum 3);
    ("language", VStr "JavaScript");
    ("size", VNum 1024);
    ("created_at", VStr "2023-01-01T00:00:00Z");
    ("updated_at", VStr "2023-12-01T00:00:00Z") ].

(** All mocks in their default state, the API resolving with
    [mockRepoData]. *)
Definition mock (inputs : string -> string) : host :=
  {| core_getInput := inputs;
     process_env := fun _ => None;
     context_repo := Ok ("test-owner", "test-repo");
     type_error_message := v8_message;
     date_now := fun _ => "2023-01-01T12:00:00.000Z";
     core_setOutput := fun _ _ _ => Ok tt;
     repos_get := fun _ _ _ _ => Ok {| data := mockRepoData |};
     summary_write := fun _ _ _ => Ok tt |}.

(** [mockCore.setOutput] throwing [new Error('Test error')]. *)
Definition setOutput_throws (h : host) : host :=
  {| core_getInput := core_getInput h;
     process_env := process_env h;
     context_repo := context_repo h;
     type_error_message := type_error_message h;
     date_now := date_now h;
     core_setOutput := fun _ _ _ => Throw (Error "Test error");
     repos_get := repos_get h;
     summary_write := summary_write h |}.

(** [mockOctokit.rest.repos.get] rejecting with [new Error('API Error')]. *)
Definition repos_get_rejects (h : host) : host :=
  {| core_getInput := core_getInput h;
     process_env := process_env h;
     context_repo := context_repo h;
     type_error_message := type_error_message h;
     date_now := date_now h;
     core_setOutput := core_setOutput h;
     repos_get := fun _ _ _ _ => Throw (Error "API Error");
     summary_write := summary_write h |}.

(** The summary file of the host missing, as in a local run. *)
Definition summary_unavailable (h : host) : host :=
  {| core_getInput := core_getInput h;
     process_env := process_env h;
     context_repo := context_repo h;
     type_error_message := type_error_message h;
     date_now := date_now h;
     core_setOutput := core_setOutput h;
     repos_get := repos_get h;
     summary_write := fun _ _ _ =>
       Throw (Error "Summary unavailable") |}.

(** The inputs of the test with a token. *)
Definition token_inputs (name : string) : string :=
  if String.eqb name "github-token" then "test-token" else default_inputs name.

(** The inputs of the test with a timestamp. *)
Definition time_inputs (name : string) : string :=
  if String.eqb name "include-time" then "true" else default_inputs name.

(** The same inputs with another token. *)
Definition other_token_inputs (name : string) : string :=
  if String.eqb name "github-token" then "another-token" else default_inputs name.

(** The environment of a local run as the header of index.js sets it up
    (lines 8-10). *)
Definition local_env (variable : string) : option string :=
  if String.eqb variable "INPUT_WHO_TO_GREET" then Some "Local Developer"
  else if String.eqb variable "INPUT_INCLUDE_TIME" then Some "true"
  else if String.eqb variable "INPUT_MESSAGE_PREFIX" then Some "Hey"
  else None.

(** A local run: the input store is empty and the inputs come from the
    environment. *)
Definition local_run : host :=
  {| core_getInput := fun _ => "";
     process_env := local_env;
     context_repo := Ok ("test-owner", "test-repo");
     type_error_message := v8_message;
     date_now := fun _ => "2023-01-01T12:00:00.000Z";
     core_setOutput := fun _ _ _ => Ok tt;
     repos_get := fun _ _ _ _ => Ok {| data := mockRepoData |};
     summary_write := fun _ _ _ => Throw (Error "Summary unavailable") |}.

End TestHosts.

(** * Vocabulary of the properties

    The notions in which the properties below are stated and proved: what a
    computation calls and returns, when a run fetches, which exceptions
    escape, what the log fallback writes, and when two hosts differ only in
    the token. *)

(** ** Arguments of the greeting *)

(** An argument of the greeting that is a string, [null] or [undefined]. *)
Inductive nullable : Type :=
| Absent_null
| Absent_undefined
| Present (s : string).

Definition nullable_value (a : nullable) : value :=
  match a with
  | Absent_null => VNull
  | Absent_undefined => VUndefined
  | Present s => VStr s
  end.

(** The text a template literal prints for it. *)
Definition rendered (a : nullable) : string :=
  match a with
  | Absent_null => "null"
  | Absent_undefined => "undefined"
  | Present s => s
  end.

(** ** The contract of the input resolver *)

(** A name of ASCII characters only. *)
Definition ascii_name (name : string) : bool :=
  forallb (fun c => (nat_of_ascii c <? 128)%nat) (list_ascii_of_string name).

(** The contract names the variable by upper-casing the name and replacing
    dashes with underscores.  Both are written here as translations between
    alphabets, character by character, without the helpers of the program:
    [translate from to c] is the character of [to] at the position of [c]
    in [from], and [c] itself when [c] is not in [from]. *)
Fixpoint translate (from to : list ascii) (c : ascii) : ascii :=
  match from, to with
  | f :: from', t :: to' => if Ascii.eqb c f then t else translate from' to' c
  | _, _ => c
  end.

Definition translated (from to : string) (s : string) : string :=
  string_of_list_ascii
    (map (translate (list_ascii_of_string from) (list_ascii_of_string to))
       (list_ascii_of_string s)).

Definition lowercase_letters : string := "abcdefghijklmnopqrstuvwxyz".
Definition uppercase_letters : string := "ABCDEFGHIJKLMNOPQRSTUVWXYZ".

Definition uppercased : string -> string :=
  translated lowercase_letters uppercase_letters.
Definition dashes_as_underscores : string -> string := translated "-" "_".

(** The resolver in the words of its contract: the value of the input store
    when it is not empty; otherwise the environment variable whose name is
    the upper-cased input name with dashes turned into underscores, prefixed
    with [INPUT_]; otherwise the empty string. *)
Definition env_name_spec (name : string) : string :=
  "INPUT_" ++ dashes_as_underscores (uppercased name).

Definition getInput_spec (h : host) (name : string) : string :=
  match core_getInput h name with
  | EmptyString =>
      match process_env h (env_name_spec name) with
      | Some v => v
      | None => ""
      end
  | stored => stored
  end.

(** ** Calls and results of a computation *)

(** [yields m tr r new]: started after the calls [tr], [m] ends with [r]
    having made the calls [new]. *)
Definition yields {A : Type} (m : M A) (tr : trace) (r : result A) (new : trace) : Prop :=
  m tr = (r, (tr ++ new)%list).

(** Every call of [m] satisfies [P], whatever was called before. *)
Definition only (P : call -> Prop) {A : Type} (m : M A) : Prop :=
  forall tr, exists r new, yields m tr r new /\ Forall P new.

(** Every call of [m] satisfies [P], and a value returned by [m] satisfies
    [Q]. *)
Definition hoare (P : call -> Prop) {A : Type} (m : M A) (Q : A -> Prop) : Prop :=
  forall tr, exists r new,
    yields m tr r new /\ Forall P new /\ forall a, r = Ok a -> Q a.

(** ** A run and its inputs *)

(** The credential and the repository identity of a run. *)
Definition token_present (h : host) : Prop := getInput h "github-token" <> "".

Definition identity_resolved (h : host) : Prop :=
  exists owner repo,
    context_repo h = Ok (owner, repo) /\ owner <> "" /\ repo <> "".

(** Calls other than the fetch and the publication of [repo-stats]. *)
Definition not_stats_call (c : call) : Prop :=
  match c with
  | ReposGet _ _ _ => False
  | SetOutput key _ => key <> "repo-stats"
  | _ => True
  end.

(** No constraint on a call. *)
Definition any_call (c : call) : Prop := True.

(** The greeting of a run: prefix and subject with their defaults. *)
Definition greeting_of (h : host) : string :=
  str_or (getInput h "message-prefix") "Hello" ++ ", "
  ++ str_or (getInput h "who-to-greet") "World" ++ "!".

(** The lines that open the log of a run, lines 120-130: they show the
    token as "Yes" or "No". *)
Definition announcement (h : host) : list string :=
  [ "Starting Hello World Action...";
    "Who to greet: " ++ str_or (getInput h "who-to-greet") "World";
    "Message prefix: " ++ str_or (getInput h "message-prefix") "Hello";
    "Include time: " ++ bool_to_string (getBooleanInput h "include-time");
    "GitHub token provided: "
      ++ (if nonempty (getInput h "github-token") then "Yes" else "No");
    "Generated greeting: " ++ greeting_of h ].

(** ** Exceptions *)



(** The report of line 195. *)
Definition failure_report (h : host) (e : exn) : call :=
  SetFailed ("Action failed with error: " ++ message_of h e).




(** ** The summary and its fallback *)

(** A value that a template literal can print. *)
Definition printable (v : value) : Prop := exists s, to_str v = Ok s.

(** The two values of the statistics that reach the table as they are. *)
Definition printable_stats (repoStats : option RepoStats) : Prop :=
  match repoStats with
  | Some stats =>
      printable (name stats) /\ printable (js_or (language stats) (VStr "Unknown"))
  | None => True
  end.

(** The text of the log line of a row, line 189. *)
Definition row_text (r : row) (line : string) : Prop :=
  exists f v,
    cell_to_str (fst r) = Ok f /\ cell_to_str (snd r) = Ok v /\
    line = "   " ++ f ++ ": " ++ v.

(** A call other than the summary write. *)
Definition no_summary (c : call) : Prop :=
  match c with SummaryWrite _ _ => False | _ => True end.

(** The calls that follow a failed summary write: the heading of the
    fallback, one line for each row after the first, the completion line. *)
Definition fallback_lines (t : table) (post : trace) : Prop :=
  exists lines,
    Forall2 row_text (skipn 1 t) lines /\
    post = (Info fallback_heading :: map Info lines ++ [Info completion_line])%list.

(** [m] recovers from a failed summary write. *)
Definition falls_back (h : host) (m : M unit) : Prop :=
  forall tr, exists r new,
    yields m tr r new /\
    forall pre hd t post e,
      new = (pre ++ SummaryWrite hd t :: post)%list ->
      summary_write h (tr ++ pre)%list hd t = Throw e ->
      r = Ok tt /\ fallback_lines t post.

(** The reading of C8 under which every row of the table, the header row
    included, is written as a log line. *)
Definition fallback_logs_every_row (h : host) : Prop :=
  forall pre hd t post e,
    calls h = (pre ++ SummaryWrite hd t :: post)%list ->
    summary_write h pre hd t = Throw e ->
    (forall r, In r t -> exists line, row_text r line /\ In (Info line) post) /\
    run_steps h [] = (Ok tt, calls h).

(** ** Runs that differ in the token *)

Definition is_fetch (c : call) : Prop :=
  match c with ReposGet _ _ _ => True | _ => False end.

Definition no_fetch (c : call) : Prop :=
  match c with ReposGet _ _ _ => False | _ => True end.

(** The calls of a run up to its fetch, if it makes one. *)
Fixpoint before_fetch (tr : trace) : trace :=
  match tr with
  | [] => []
  | ReposGet _ _ _ :: _ => []
  | c :: rest => c :: before_fetch rest
  end.

(** The lines written by [core.info]. *)
Fixpoint info_lines (tr : trace) : list string :=
  match tr with
  | [] => []
  | Info line :: rest => line :: info_lines rest
  | _ :: rest => info_lines rest
  end.

(** Two hosts that differ at most in the value of the token (and in what
    the API answers): the other inputs, the presence of the token, the
    context, the engine, the clock and the files are the same. *)
Record same_but_token (h1 h2 : host) : Prop := {
  same_who : getInput h1 "who-to-greet" = getInput h2 "who-to-greet";
  same_time : getInput h1 "include-time" = getInput h2 "include-time";
  same_prefix : getInput h1 "message-prefix" = getInput h2 "message-prefix";
  same_presence :
    nonempty (getInput h1 "github-token") = nonempty (getInput h2 "github-token");
  same_context : context_repo h1 = context_repo h2;
  same_engine : forall k, type_error_message h1 k = type_error_message h2 k;
  same_clock : forall tr, date_now h1 tr = date_now h2 tr;
  same_output : forall tr key v, core_setOutput h1 tr key v = core_setOutput h2 tr key v;
  same_summary :
    forall tr heading t, summary_write h1 tr heading t = summary_write h2 tr heading t
}.

(** Two outcomes are in step when they are equal and no fetch was made, or
    when the calls of both are the same up to a first fetch. *)
Definition in_step {A : Type} (x1 x2 : result A * trace) : Prop :=
  (x1 = x2 /\ Forall no_fetch (snd x1)) \/
  (exists pre c1 c2 rest1 rest2,
      Forall no_fetch pre /\ is_fetch c1 /\ is_fetch c2 /\
      snd x1 = (pre ++ c1 :: rest1)%list /\ snd x2 = (pre ++ c2 :: rest2)%list).

(** Two computations that stay in step, started after the same calls
    without a fetch; each of them only adds calls. *)
Definition alike {A : Type} (m1 m2 : M A) : Prop :=
  only any_call m1 /\ only any_call m2 /\
  forall tr, Forall no_fetch tr -> in_step (m1 tr) (m2 tr).

(** ** Further vocabulary *)

(** Every character, for the facts that are checked character by
    character. *)
Definition all_ascii : list ascii := map ascii_of_nat (seq 0 256).

(** Two characters that an input name may exchange without changing its
    variable: the same character, a dash and an underscore, or one letter
    in its two cases. *)
Definition dash_or_underscore (c : ascii) : bool :=
  Ascii.eqb c "-" || Ascii.eqb c "_".

Definition same_letter (a b : ascii) : bool :=
  existsb
    (fun letter : ascii * ascii =>
       let (lower, upper) := letter in
       (Ascii.eqb a lower && Ascii.eqb b upper)
       || (Ascii.eqb a upper && Ascii.eqb b lower))
    (combine (list_ascii_of_string lowercase_letters)
       (list_ascii_of_string uppercase_letters)).

Definition akin (a b : ascii) : bool :=
  Ascii.eqb a b || (dash_or_underscore a && dash_or_underscore b) || same_letter a b.

(** Names of one length whose characters are akin position by position. *)
Fixpoint akin_names (name1 name2 : string) : bool :=
  match name1, name2 with
  | EmptyString, EmptyString => true
  | String a rest1, String b rest2 => akin a b && akin_names rest1 rest2
  | _, _ => false
  end.

(** The character of the variable name for a character of the input name
    (line 42: the dashes are replaced first, then the name is upper-cased). *)
Definition env_char (c : ascii) : ascii := upper_char (dash_to_underscore c).

(** A character that a variable name may hold: no dash, none of the
    letters a-z. *)
Definition normalised_char (c : ascii) : bool :=
  negb (Ascii.eqb c "-")
  && negb (existsb (Ascii.eqb c) (list_ascii_of_string lowercase_letters)).

(** A call that is neither the completion line nor a failure report. *)
Definition not_terminal (c : call) : Prop :=
  c <> Info completion_line /\ forall m, c <> SetFailed m.

(** [m] ends with the completion line when it returns, and never logs it
    when it throws; it makes no failure report. *)
Definition finishes (m : M unit) : Prop :=
  forall tr, exists r new,
    yields m tr r new /\
    match r with
    | Ok _ => exists body,
        new = (body ++ [Info completion_line])%list /\ Forall not_terminal body
    | Throw _ => Forall not_terminal new
    end.

(** A call other than the publication of [time]. *)
Definition not_time_output (c : call) : Prop :=
  match c with SetOutput key _ => key <> "time" | _ => True end.

(** The record that [getRepoStats] builds from a response (lines 93-102). *)
Definition stats_of (resp : response) : RepoStats :=
  {| name := own_or_undefined "full_name" (data resp);
     stars := own_or_undefined "stargazers_count" (data resp);
     forks := own_or_undefined "forks_count" (data resp);
     issues := own_or_undefined "open_issues_count" (data resp);
     language := own_or_undefined "language" (data resp);
     size := own_or_undefined "size" (data resp);
     created := own_or_undefined "created_at" (data resp);
     updated := own_or_undefined "updated_at" (data resp) |}.

(** The five lines that log a record of statistics (lines 150-154): each
    value is printed as a template literal prints it, the language as
    "Unknown" when it is missing. *)
Definition stats_lines (stats : RepoStats) (lines : list string) : Prop :=
  exists full_name stars_text forks_text issues_text language_text,
    to_str (name stats) = Ok full_name /\
    to_str (stars stats) = Ok stars_text /\
    to_str (forks stats) = Ok forks_text /\
    to_str (issues stats) = Ok issues_text /\
    to_str (js_or (language stats) (VStr "Unknown")) = Ok language_text /\
    lines = [ "Repository: " ++ full_name;
              label_stars ++ ": " ++ stars_text;
              label_forks ++ ": " ++ forks_text;
              label_issues ++ ": " ++ issues_text;
              label_language ++ ": " ++ language_text ].

(** The calls of [m] are calls of the block of lines 144-158, between calls
    that are neither a fetch nor a [repo-stats] output. *)
Definition around (h : host) (token : string) {A : Type} (m : M A) : Prop :=
  forall tr, exists r new p mid q,
    yields m tr r new /\
    new = (p ++ mid ++ q)%list /\
    Forall not_stats_call p /\ Forall not_stats_call q /\
    (mid = [] \/
     exists r', fetch_stats h token (tr ++ p)%list = (r', ((tr ++ p) ++ mid)%list)).

(** A call other than the publication of [repo-stats]. *)
Definition not_stats_output (c : call) : Prop :=
  match c with SetOutput key _ => key <> "repo-stats" | _ => True end.

Definition is_stats_output (c : call) : Prop :=
  match c with SetOutput key _ => key = "repo-stats" | _ => False end.

(** The five rows of a record of statistics (lines 172-178): the counts are
    printed by [.toString()], the language is "Unknown" when it is
    missing. *)
Definition stats_rows (stats : RepoStats) (rows : table) : Prop :=
  exists stars_text forks_text issues_text,
    toString (stars stats) = Ok stars_text /\
    toString (forks stats) = Ok forks_text /\
    toString (issues stats) = Ok issues_text /\
    rows = [ (Cell (VStr "Repository"), Cell (name stats));
             (Cell (VStr label_stars), Cell (VStr stars_text));
             (Cell (VStr label_forks), Cell (VStr forks_text));
             (Cell (VStr label_issues), Cell (VStr issues_text));
             (Cell (VStr label_language),
              Cell (js_or (language stats) (VStr "Unknown"))) ].

(** The table of a run whose calls so far are [pre]: the header row; the
    row of the greeting; the row of the timestamp exactly when
    [include-time] is true, with the time published as the [time] output;
    and then no further row when no [repo-stats] output was made, or else
    the five rows of the record published as [repo-stats]. *)
Definition table_of_run (h : host) (pre : trace) (t : table) : Prop :=
  exists time_rows more,
    t = ((HeaderCell "Field", HeaderCell "Value")
           :: (Cell (VStr "Greeting"), Cell (VStr (greeting_of h)))
           :: time_rows ++ more)%list /\
    (if getBooleanInput h "include-time"
     then exists time,
         In (SetOutput "time" (OStr time)) pre /\
         time_rows = [ (Cell (VStr "Timestamp"), Cell (VStr time)) ]
     else time_rows = []) /\
    ((Forall not_stats_output pre /\ more = []) \/
     exists stats,
       In (SetOutput "repo-stats" (OJson stats)) pre /\ stats_rows stats more).

(** A call that neither writes the summary nor publishes [repo-stats]. *)
Definition quiet (c : call) : Prop := no_summary c /\ not_stats_output c.

(** [m] writes no summary; started after calls that satisfy [Pre], a value
    it returns satisfies [Post] with the calls made by then. *)
Definition leads (Pre : trace -> Prop) {A : Type} (m : M A)
    (Post : A -> trace -> Prop) : Prop :=
  forall tr, Pre tr ->
    exists r new,
      yields m tr r new /\ Forall no_summary new /\
      forall a, r = Ok a -> Post a (tr ++ new)%list.

(** Started after calls that satisfy [Pre], every summary that [m] writes
    has the heading of line 184 and the table of the run. *)
Definition tabled (h : host) (Pre : trace -> Prop) (m : M unit) : Prop :=
  forall tr, Pre tr ->
    exists r new,
      yields m tr r new /\
      forall pre hd t post,
        new = (pre ++ SummaryWrite hd t :: post)%list ->
        hd = summary_heading /\ table_of_run h (tr ++ pre)%list t.

(** [m] writes the summary at most once, and when the write returns, the
    completion line is the one call that follows. *)
Definition renders (h : host) (m : M unit) : Prop :=
  forall tr, exists r new,
    yields m tr r new /\
    forall pre hd t post,
      new = (pre ++ SummaryWrite hd t :: post)%list ->
      Forall no_summary pre /\ Forall no_summary post /\
      forall u, summary_write h (tr ++ pre)%list hd t = Ok u ->
                r = Ok tt /\ post = [Info completion_line].




(** A host whose output file takes every output. *)
Definition accepts_outputs (h : host) : Prop :=
  forall tr key v, core_setOutput h tr key v = Ok tt.

(** [m] returns, having made neither a fetch nor a [repo-stats] output. *)
Definition passes {A : Type} (m : M A) : Prop :=
  forall tr, exists a new, yields m tr (Ok a) new /\ Forall not_stats_call new.

(** [m] throws [e], having made neither a fetch nor a [repo-stats] output. *)
Definition dies (e : exn) {A : Type} (m : M A) : Prop :=
  forall tr, exists new, yields m tr (Throw e) new /\ Forall not_stats_call new.

(** Two more hosts: an API that answers with the name of the repository
    only, and a context without a repository. *)
Module MoreHosts.


Definition no_repository : host :=
  {| core_getInput := TestHosts.token_inputs;
     process_env := fun _ => None;
     context_repo := Throw (Error "context.repo requires a GITHUB_REPOSITORY environment variable like 'owner/repo'");
     type_error_message := TestHosts.v8_message;
     date_now := fun _ => "2023-01-01T12:00:00.000Z";
     core_setOutput := fun _ _ _ => Ok tt;
     repos_get := fun _ _ _ _ => Ok {| data := TestHosts.mockRepoData |};
     summary_write := fun _ _ _ => Ok tt |}.

End MoreHosts.

(** * Properties *)

(** ** Runs of the test suite *)

(** "should handle default inputs correctly", "should create summary table"
    and "should skip repo stats when no token provided". *)
Example run_default :
  run (TestHosts.mock TestHosts.default_inputs) [] =
    (Ok tt,
     [ Info "Starting Hello World Action...";
       Info "Who to greet: World";
       Info "Message prefix: Hello";
       Info "Include time: false";
       Info "GitHub token provided: No";
       Info "Generated greeting: Hello, World!";
       SetOutput "message" (OStr "Hello, World!");
       SetSecret "my-secret-value";
       SummaryWrite summary_heading
         [ (HeaderCell "Field", HeaderCell "Value");
           (Cell (VStr "Greeting"), Cell (VStr "Hello, World!")) ];
       Info completion_line ]).
Proof. reflexivity. Qed.

(** "should include time when requested". *)
Example run_with_time :
  run (TestHosts.mock TestHosts.time_inputs) [] =
    (Ok tt,
     [ Info "Starting Hello World Action...";
       Info "Who to greet: World";
       Info "Message prefix: Hello";
       Info "Include time: true";
       Info "GitHub token provided: No";
       Info "Generated greeting: Hello, World!";
       SetOutput "message" (OStr "Hello, World!");
       Info "Current time: 2023-01-01T12:00:00.000Z";
       SetOutput "time" (OStr "2023-01-01T12:00:00.000Z");
       SetSecret "my-secret-value";
       SummaryWrite summary_heading
         [ (HeaderCell "Field", HeaderCell "Value");
           (Cell (VStr "Greeting"), Cell (VStr "Hello, World!"));
           (Cell (VStr "Timestamp"), Cell (VStr "2023-01-01T12:00:00.000Z")) ];
       Info completion_line ]).
Proof. reflexivity. Qed.

(** "should handle errors gracefully". *)
Example run_setOutput_throws :
  run (TestHosts.setOutput_throws (TestHosts.mock TestHosts.default_inputs)) [] =
    (Ok tt,
     [ Info "Starting Hello World Action...";
       Info "Who to greet: World";
       Info "Message prefix: Hello";
       Info "Include time: false";
       Info "GitHub token provided: No";
       Info "Generated greeting: Hello, World!";
       SetOutput "message" (OStr "Hello, World!");
       SetFailed "Action failed with error: Test error" ]).
Proof. reflexivity. Qed.

(** A run with a token, the fetch rejected and the summary unavailable: the
    run warns, falls back to the log and completes. *)
Example run_degraded :
  run (TestHosts.summary_unavailable
         (TestHosts.repos_get_rejects (TestHosts.mock TestHosts.token_inputs))) [] =
    (Ok tt,
     [ Info "Starting Hello World Action...";
       Info "Who to greet: World";
       Info "Message prefix: Hello";
       Info "Include time: false";
       Info "GitHub token provided: Yes";
       Info "Generated greeting: Hello, World!";
       SetOutput "message" (OStr "Hello, World!");
       Info "Fetching repository statistics...";
       ReposGet "test-token" "test-owner" "test-repo";
       Warning "Failed to fetch repository stats: API Error";
       SetSecret "my-secret-value";
       SummaryWrite summary_heading
         [ (HeaderCell "Field", HeaderCell "Value");
           (Cell (VStr "Greeting"), Cell (VStr "Hello, World!")) ];
       Info fallback_heading;
       Info "   Greeting: Hello, World!";
       Info completion_line ]).
Proof. reflexivity. Qed.

(** A response without [stargazers_count]: the engine throws at
    [repoStats.stars.toString()] (line 174) and the run fails. *)
Example run_incomplete_response :
  let h := {| core_getInput := TestHosts.token_inputs;
              process_env := fun _ => None;
              context_repo := Ok ("test-owner", "test-repo");
              type_error_message := TestHosts.v8_message;
              date_now := fun _ => "2023-01-01T12:00:00.000Z";
              core_setOutput := fun _ _ _ => Ok tt;
              repos_get := fun _ _ _ _ =>
                Ok {| data := [ ("full_name", VStr "test-owner/test-repo") ] |};
              summary_write := fun _ _ _ => Ok tt |} in
  outcome h = Ok tt /\
  last (calls h) (Info "") =
    SetFailed "Action failed with error: Cannot read properties of undefined (reading 'toString')".
Proof. split; reflexivity. Qed.

(** ** Greeting formatter *)

(** C1. For all strings [prefix] and [name], empty ones included,
    [createGreeting(prefix, name)] is exactly [prefix + ", " + name + "!"].
    The function takes no host and no trace, so it is pure, and on strings
    it returns and does not throw. *)
Theorem createGreeting_strings (prefix name : string) :
  createGreeting (VStr prefix) (VStr name) = Ok (prefix ++ ", " ++ name ++ "!").
Proof. reflexivity. Qed.

(** The empty-string cases of the test suite. *)
Example createGreeting_empty_prefix :
  createGreeting (VStr "") (VStr "World") = Ok ", World!".
Proof. reflexivity. Qed.

Example createGreeting_empty_name :
  createGreeting (VStr "Hello") (VStr "") = Ok "Hello, !".
Proof. reflexivity. Qed.

(** C10. A [null] or [undefined] argument of [createGreeting] is printed as
    the word "null" or "undefined": [createGreeting(null, name)] is
    ["null, " + name + "!"], [createGreeting(prefix, undefined)] is
    [prefix + ", undefined!"], and whichever arguments are absent the call
    returns and does not throw. *)
Theorem createGreeting_nullish :
  (forall name : string,
      createGreeting VNull (VStr name) = Ok ("null, " ++ name ++ "!")) /\
  (forall prefix : string,
      createGreeting (VStr prefix) VUndefined = Ok (prefix ++ ", undefined!")) /\
  (forall a b : nullable,
      createGreeting (nullable_value a) (nullable_value b)
      = Ok (rendered a ++ ", " ++ rendered b ++ "!")).
Proof.
  repeat split; try reflexivity.
  intros [| |p] [| |n]; reflexivity.
Qed.

(** ** Input resolver *)

Lemma upper_dash_commute (c : ascii) :
  upper_char (dash_to_underscore c) = dash_to_underscore (upper_char c).
Proof. destruct c as [[] [] [] [] [] [] [] []]; reflexivity. Qed.

Lemma toUpperCase_replace_dashes (s : string) :
  toUpperCase (replace_dashes s) = replace_dashes (toUpperCase s).
Proof.
  induction s as [|c s IH]; simpl.
  - reflexivity.
  - unfold toUpperCase, replace_dashes in *. simpl.
    rewrite upper_dash_commute, IH. reflexivity.
Qed.

(** The helpers of the program against the alphabets of the contract, one
    character at a time. *)
Lemma upper_char_translate (c : ascii) :
  upper_char c
  = translate (list_ascii_of_string lowercase_letters)
      (list_ascii_of_string uppercase_letters) c.
Proof. destruct c as [[] [] [] [] [] [] [] []]; reflexivity. Qed.

Lemma dash_to_underscore_translate (c : ascii) :
  dash_to_underscore c = translate ["-"%char] ["_"%char] c.
Proof. reflexivity. Qed.

Lemma map_chars_translated (f : ascii -> ascii) (from to : string) :
  (forall c, f c = translate (list_ascii_of_string from)
                     (list_ascii_of_string to) c) ->
  forall s, map_chars f s = translated from to s.
Proof.
  intros Hf s. unfold translated.
  induction s as [|c s IH]; simpl; [reflexivity |].
  now rewrite Hf, IH.
Qed.

Lemma env_name_agrees (name : string) : env_name name = env_name_spec name.
Proof.
  unfold env_name, env_name_spec. rewrite toUpperCase_replace_dashes.
  unfold toUpperCase, replace_dashes, uppercased, dashes_as_underscores.
  rewrite (map_chars_translated upper_char _ _ upper_char_translate).
  now rewrite (map_chars_translated dash_to_underscore "-" "_"
                 dash_to_underscore_translate).
Qed.

Lemma str_or_empty (s : string) : str_or s "" = s.
Proof. destruct s; reflexivity. Qed.

(** C6. For a name of ASCII characters, [getInput(name)] is the value of
    the input store when that is not empty; otherwise the value of the
    environment variable named [INPUT_] followed by the upper-cased name
    with dashes replaced by underscores; otherwise the empty string.  The
    name of the variable is written with the alphabets of the contract, not
    with the helpers of the program.  [getInput] is a total function of the
    host and the name: it has no failing case. *)
Theorem getInput_contract (h : host) (name : string) :
  ascii_name name = true ->
  getInput h name = getInput_spec h name /\
  (core_getInput h name <> "" -> getInput h name = core_getInput h name) /\
  (forall v,
      core_getInput h name = "" ->
      process_env h ("INPUT_" ++ dashes_as_underscores (uppercased name)) = Some v ->
      getInput h name = v) /\
  (core_getInput h name = "" ->
   process_env h ("INPUT_" ++ dashes_as_underscores (uppercased name)) = None ->
   getInput h name = "").
Proof.
  intros _.
  assert (Heq : getInput h name = getInput_spec h name).
  { unfold getInput, getInput_spec.
    rewrite env_name_agrees, str_or_empty.
    destruct (core_getInput h name); reflexivity. }
  split; [exact Heq |]. rewrite Heq. unfold getInput_spec, env_name_spec.
  repeat split.
  - intros Hne. destruct (core_getInput h name); [contradiction | reflexivity].
  - intros v Hs He. now rewrite Hs, He.
  - intros Hs He. now rewrite Hs, He.
Qed.

(** In a local run the store is empty and [who-to-greet] is read from
    [INPUT_WHO_TO_GREET]. *)
Lemma getInput_contract_witness :
  ascii_name "who-to-greet" = true /\
  core_getInput TestHosts.local_run "who-to-greet" = "" /\
  process_env TestHosts.local_run "INPUT_WHO_TO_GREET" = Some "Local Developer" /\
  getInput TestHosts.local_run "who-to-greet" = "Local Developer".
Proof.
  split; [reflexivity |]. split; [reflexivity |]. split; [reflexivity |].
  exact (proj1 (proj2 (proj2
           (getInput_contract TestHosts.local_run "who-to-greet" eq_refl)))
           "Local Developer" eq_refl eq_refl).
Defined.

Example env_name_who_to_greet : env_name "who-to-greet" = "INPUT_WHO_TO_GREET".
Proof. reflexivity. Qed.

Example env_name_github_token : env_name "github-token" = "INPUT_GITHUB_TOKEN".
Proof. reflexivity. Qed.

(** ** Repository stats fetcher *)

(** C3. Whatever the token, owner and repository, when the fetch of the
    repository metadata is rejected with an error, [getRepoStats] returns
    [null] and does not throw, and the calls it has made are the fetch and
    one warning, whose text ends with the message of that error. *)
Theorem getRepoStats_rejected (h : host) (tr : trace)
    (token owner repo : string) (e : exn) :
  repos_get h tr token owner repo = Throw e ->
  getRepoStats h token owner repo tr =
    (Ok None,
     (tr ++ [ ReposGet token owner repo;
              Warning ("Failed to fetch repository stats: " ++ message_of h e) ])%list).
Proof.
  intros Hrej.
  unfold getRepoStats, try_catch, bind, octokit_repos_get, warning, ret.
  rewrite Hrej. rewrite <- app_assoc. reflexivity.
Qed.

Lemma getRepoStats_rejected_witness :
  let h := TestHosts.repos_get_rejects (TestHosts.mock TestHosts.default_inputs) in
  repos_get h [] "token" "test-owner" "test-repo" = Throw (Error "API Error") /\
  getRepoStats h "token" "test-owner" "test-repo" [] =
    (Ok None,
     [ ReposGet "token" "test-owner" "test-repo";
       Warning "Failed to fetch repository stats: API Error" ]).
Proof.
  split; [reflexivity |].
  apply (getRepoStats_rejected
           (TestHosts.repos_get_rejects (TestHosts.mock TestHosts.default_inputs))
           [] "token" "test-owner" "test-repo" (Error "API Error")).
  reflexivity.
Defined.

(** C4. When the fetch resolves, whatever its response, [getRepoStats]
    returns the record whose fields are the values of the response under
    their new names, unchanged: [full_name] as [name], [stargazers_count] as
    [stars], [forks_count] as [forks], [open_issues_count] as [issues],
    [language], [size], [created_at] as [created] and [updated_at] as
    [updated]; the fetch is the only call made.  For a repository object
    that holds the eight properties the record holds their eight values. *)
Theorem getRepoStats_resolved (h : host) (tr : trace)
    (token owner repo : string) (resp : response) :
  repos_get h tr token owner repo = Ok resp ->
  getRepoStats h token owner repo tr =
    (Ok (Some {| name := own_or_undefined "full_name" (data resp);
                 stars := own_or_undefined "stargazers_count" (data resp);
                 forks := own_or_undefined "forks_count" (data resp);
                 issues := own_or_undefined "open_issues_count" (data resp);
                 language := own_or_undefined "language" (data resp);
                 size := own_or_undefined "size" (data resp);
                 created := own_or_undefined "created_at" (data resp);
                 updated := own_or_undefined "updated_at" (data resp) |}),
     (tr ++ [ ReposGet token owner repo ])%list) /\
  forall v1 v2 v3 v4 v5 v6 v7 v8 others,
    data resp = ([ ("full_name", v1); ("stargazers_count", v2);
                   ("forks_count", v3); ("open_issues_count", v4);
                   ("language", v5); ("size", v6);
                   ("created_at", v7); ("updated_at", v8) ] ++ others)%list ->
    fst (getRepoStats h token owner repo tr) =
      Ok (Some {| name := v1; stars := v2; forks := v3; issues := v4;
                  language := v5; size := v6; created := v7; updated := v8 |}).
Proof.
  intros Hres.
  assert (Hrun : forall stats,
             stats = {| name := own_or_undefined "full_name" (data resp);
                        stars := own_or_undefined "stargazers_count" (data resp);
                        forks := own_or_undefined "forks_count" (data resp);
                        issues := own_or_undefined "open_issues_count" (data resp);
                        language := own_or_undefined "language" (data resp);
                        size := own_or_undefined "size" (data resp);
                        created := own_or_undefined "created_at" (data resp);
                        updated := own_or_undefined "updated_at" (data resp) |} ->
             getRepoStats h token owner repo tr =
               (Ok (Some stats), (tr ++ [ ReposGet token owner repo ])%list)).
  { intros stats ->.
    unfold getRepoStats, try_catch, bind, octokit_repos_get, ret.
    now rewrite Hres. }
  split; [now apply Hrun |].
  intros v1 v2 v3 v4 v5 v6 v7 v8 others Hdata.
  rewrite (Hrun _ eq_refl), Hdata. reflexivity.
Qed.

Lemma getRepoStats_resolved_witness :
  let h := TestHosts.mock TestHosts.default_inputs in
  repos_get h [] "token" "test-owner" "test-repo"
    = Ok {| data := TestHosts.mockRepoData |} /\
  getRepoStats h "token" "test-owner" "test-repo" [] =
    (Ok (Some {| name := VStr "test-owner/test-repo";
                 stars := VNum 42;
                 forks := VNum 7;
                 issues := VNum 3;
                 language := VStr "JavaScript";
                 size := VNum 1024;
                 created := VStr "2023-01-01T00:00:00Z";
                 updated := VStr "2023-12-01T00:00:00Z" |}),
     [ ReposGet "token" "test-owner" "test-repo" ]).
Proof.
  split; [reflexivity |].
  exact (proj1 (getRepoStats_resolved (TestHosts.mock TestHosts.default_inputs)
                  [] "token" "test-owner" "test-repo"
                  {| data := TestHosts.mockRepoData |} eq_refl)).
Defined.

(** ** Reasoning about the calls of a computation *)

Section Only.

Variable P : call -> Prop.

Lemma only_ret {A : Type} (a : A) : only P (ret a).
Proof. intros tr. exists (Ok a), []. unfold yields, ret. now rewrite app_nil_r. Qed.

Lemma only_lift {A : Type} (r : result A) : only P (lift r).
Proof. intros tr. exists r, []. unfold yields, lift. now rewrite app_nil_r. Qed.

Lemma only_bind {A B : Type} (m : M A) (k : A -> M B) :
  only P m -> (forall a, only P (k a)) -> only P (bind m k).
Proof.
  intros Hm Hk tr. destruct (Hm tr) as (r & n1 & Hy & HP).
  unfold yields, bind in *. rewrite Hy. destruct r as [a|e].
  - destruct (Hk a (tr ++ n1)%list) as (r2 & n2 & Hy2 & HP2).
    exists r2, (n1 ++ n2)%list. rewrite Hy2, app_assoc. split; [reflexivity|].
    apply Forall_app; now split.
  - now exists (Throw e), n1.
Qed.

Lemma only_try_catch {A : Type} (m : M A) (handler : exn -> M A) :
  only P m -> (forall e, only P (handler e)) -> only P (try_catch m handler).
Proof.
  intros Hm Hk tr. destruct (Hm tr) as (r & n1 & Hy & HP).
  unfold yields, try_catch in *. rewrite Hy. destruct r as [a|e].
  - now exists (Ok a), n1.
  - destruct (Hk e (tr ++ n1)%list) as (r2 & n2 & Hy2 & HP2).
    exists r2, (n1 ++ n2)%list. rewrite Hy2, app_assoc. split; [reflexivity|].
    apply Forall_app; now split.
Qed.

Lemma only_for_of {A : Type} (xs : list A) (body : A -> M unit) :
  (forall x, only P (body x)) -> only P (for_of xs body).
Proof.
  intros Hb. induction xs as [|x xs IH]; simpl.
  - apply only_ret.
  - apply only_bind; [apply Hb | intros _; exact IH].
Qed.

Lemma only_call {A : Type} (c : call) (answer : trace -> result A) :
  P c -> only P (fun tr => (answer tr, (tr ++ [c])%list)).
Proof. intros Hc tr. exists (answer tr), [c]. split; [reflexivity | auto]. Qed.

Lemma only_info (s : string) : P (Info s) -> only P (info s).
Proof. apply (only_call (Info s) (fun _ => Ok tt)). Qed.

Lemma only_warning (s : string) : P (Warning s) -> only P (warning s).
Proof. apply (only_call (Warning s) (fun _ => Ok tt)). Qed.

Lemma only_setFailed (s : string) : P (SetFailed s) -> only P (setFailed s).
Proof. apply (only_call (SetFailed s) (fun _ => Ok tt)). Qed.

Lemma only_setSecret (s : string) : P (SetSecret s) -> only P (setSecret s).
Proof. apply (only_call (SetSecret s) (fun _ => Ok tt)). Qed.

Lemma only_setOutput (h : host) (key : string) (v : output_value) :
  P (SetOutput key v) -> only P (setOutput h key v).
Proof. apply (only_call (SetOutput key v) (fun tr => core_setOutput h tr key v)). Qed.

Lemma only_repos_get (h : host) (auth owner repo : string) :
  P (ReposGet auth owner repo) -> only P (octokit_repos_get h auth owner repo).
Proof.
  apply (only_call (ReposGet auth owner repo)
           (fun tr => repos_get h tr auth owner repo)).
Qed.

Lemma only_summary (h : host) (heading : string) (t : table) :
  P (SummaryWrite heading t) ->
  only P (summary_addHeading_addTable_write h heading t).
Proof.
  apply (only_call (SummaryWrite heading t)
           (fun tr => summary_write h tr heading t)).
Qed.

Lemma only_getCurrentTime (h : host) : only P (getCurrentTime h).
Proof.
  intros tr. exists (Ok (date_now h tr)), []. unfold yields, getCurrentTime.
  now rewrite app_nil_r.
Qed.

End Only.

(** One step of a proof that a block of the action makes only calls in [P]:
    the side conditions left are [P c] for the calls [c] of the block. *)
Ltac only_step :=
  match goal with
  | |- only _ (bind _ _) => apply only_bind; [| intros ?]
  | |- only _ (try_catch _ _) => apply only_try_catch; [| intros ?]
  | |- only _ (ret _) => apply only_ret
  | |- only _ (lift _) => apply only_lift
  | |- only _ (for_of _ _) => apply only_for_of; intros ?
  | |- only _ (info _) => apply only_info
  | |- only _ (warning _) => apply only_warning
  | |- only _ (setFailed _) => apply only_setFailed
  | |- only _ (setSecret _) => apply only_setSecret
  | |- only _ (setOutput _ _ _) => apply only_setOutput
  | |- only _ (octokit_repos_get _ _ _ _) => apply only_repos_get
  | |- only _ (summary_addHeading_addTable_write _ _ _) => apply only_summary
  | |- only _ (getCurrentTime _) => apply only_getCurrentTime
  | |- only _ (if ?b then _ else _) => destruct b
  | |- only _ (match ?o with Some _ => _ | None => _ end) => destruct o
  | |- only _ (let '(_, _) := ?p in _) => destruct p
  end.

Section Blocks.

Variable h : host.
Variable P : call -> Prop.

Lemma only_include_timestamp (includeTime : bool) :
  (forall s, P (Info s)) -> (forall s, P (SetOutput "time" (OStr s))) ->
  only P (include_timestamp h includeTime).
Proof. intros Hi Ho. unfold include_timestamp. repeat only_step; auto. Qed.

Lemma only_getRepoStats (token owner repo : string) :
  P (ReposGet token owner repo) -> (forall s, P (Warning s)) ->
  only P (getRepoStats h token owner repo).
Proof. intros Hg Hw. unfold getRepoStats. repeat only_step; auto. Qed.

Lemma only_report_stats (stats : RepoStats) :
  (forall s, P (Info s)) -> P (SetOutput "repo-stats" (OJson stats)) ->
  only P (report_stats h stats).
Proof. intros Hi Ho. unfold report_stats. repeat only_step; auto. Qed.

Lemma only_write_summary (t : table) :
  (forall s, P (Info s)) -> P (SummaryWrite summary_heading t) ->
  only P (write_summary h t).
Proof.
  intros Hi Hs. unfold write_summary, log_row. repeat only_step; auto.
Qed.

End Blocks.

(** ** When the repository statistics are fetched *)

Lemma nonempty_true (s : string) : nonempty s = true <-> s <> "".
Proof.
  unfold nonempty. destruct (String.eqb_spec s ""); simpl; split; congruence.
Qed.

(** Without a token, or without an owner and a repository, the block of
    lines 144-158 makes no call at all. *)
Lemma fetch_stats_skipped (h : host) :
  ~ (token_present h /\ identity_resolved h) ->
  forall tr, exists r, fetch_stats h (getInput h "github-token") tr = (r, tr).
Proof.
  unfold token_present, identity_resolved. intros Hno tr.
  unfold fetch_stats, context_repo_owner, context_repo_repo, bind, lift, ret.
  destruct (nonempty (getInput h "github-token")) eqn:Ht; [| eauto].
  destruct (context_repo h) as [[owner repo]|e] eqn:Hc; simpl; [| eauto].
  destruct (nonempty owner) eqn:Ho; [| eauto].
  destruct (nonempty repo) eqn:Hr; [| eauto].
  exfalso. apply Hno. apply nonempty_true in Ht, Ho, Hr.
  split; [assumption | now exists owner, repo].
Qed.

Lemma only_fetch_stats_skipped (h : host) (P : call -> Prop) :
  ~ (token_present h /\ identity_resolved h) ->
  only P (fetch_stats h (getInput h "github-token")).
Proof.
  intros Hno tr. destruct (fetch_stats_skipped h Hno tr) as [r Hr].
  exists r, []. unfold yields. now rewrite Hr, app_nil_r.
Qed.

Lemma run_without_stats (h : host) :
  ~ (token_present h /\ identity_resolved h) ->
  Forall not_stats_call (calls h).
Proof.
  intros Hno.
  assert (Hrun : only not_stats_call (run h)).
  { unfold run, run_steps.
    repeat first
      [ apply only_fetch_stats_skipped; assumption
      | apply only_include_timestamp; intros
      | apply only_write_summary; intros
      | only_step ];
    simpl; solve [ exact I | discriminate ]. }
  destruct (Hrun []) as (r & new & Hy & HP).
  unfold calls. unfold yields in Hy. now rewrite Hy.
Qed.

Lemma token_present_dec (h : host) : {token_present h} + {~ token_present h}.
Proof.
  unfold token_present.
  destruct (string_dec (getInput h "github-token") ""); [right | left]; congruence.
Qed.

Lemma identity_resolved_dec (h : host) :
  {identity_resolved h} + {~ identity_resolved h}.
Proof.
  unfold identity_resolved.
  destruct (context_repo h) as [[owner repo]|e].
  - destruct (string_dec owner "") as [->|Ho].
    + right. intros (o & r & Heq & Hne & _). inversion Heq; subst. now apply Hne.
    + destruct (string_dec repo "") as [->|Hr].
      * right. intros (o & r & Heq & _ & Hne). inversion Heq; subst. now apply Hne.
      * left. now exists owner, repo.
  - right. intros (o & r & Heq & _). discriminate.
Qed.

(** C5. In every run the fetch of repository statistics is attempted only
    when the resolved token is not empty and the context yields a non-empty
    owner and a non-empty repository; when the token or the identity is
    missing, the run makes no fetch and no [repo-stats] output. *)
Theorem stats_fetch_guarded (h : host) :
  (forall auth owner repo,
      In (ReposGet auth owner repo) (calls h) ->
      token_present h /\ identity_resolved h) /\
  (~ token_present h \/ ~ identity_resolved h ->
   (forall auth owner repo, ~ In (ReposGet auth owner repo) (calls h)) /\
   (forall v, ~ In (SetOutput "repo-stats" v) (calls h))).
Proof.
  assert (Hskip : ~ (token_present h /\ identity_resolved h) ->
                  forall c, In c (calls h) -> not_stats_call c).
  { intros Hno. apply Forall_forall. now apply run_without_stats. }
  split.
  - intros auth owner repo Hin.
    destruct (token_present_dec h) as [Ht|Ht];
      [destruct (identity_resolved_dec h) as [Hi|Hi]; [now split |] |].
    all: assert (Hno : ~ (token_present h /\ identity_resolved h)) by tauto.
    all: destruct (Hskip Hno _ Hin).
  - intros Hno.
    assert (Hno' : ~ (token_present h /\ identity_resolved h)) by tauto.
    split.
    + intros auth owner repo Hin. exact (Hskip Hno' _ Hin).
    + intros v Hin. now apply (Hskip Hno' _ Hin).
Qed.

(** ** The first steps of a run *)

Lemma only_fetch_stats_any (h : host) (token : string) :
  only any_call (fetch_stats h token).
Proof.
  unfold fetch_stats, context_repo_owner, context_repo_repo.
  repeat first
    [ apply only_getRepoStats; intros
    | apply only_report_stats; intros
    | only_step ];
  exact I.
Qed.

(** Stepping through a [try] block. *)
Lemma try_info {A : Type} (s : string) (k : unit -> M A) (hd : exn -> M A) (tr : trace) :
  try_catch (bind (info s) k) hd tr = try_catch (k tt) hd (tr ++ [Info s])%list.
Proof. reflexivity. Qed.

Lemma try_lift_ok {A B : Type} (b : B) (k : B -> M A) (hd : exn -> M A) (tr : trace) :
  try_catch (bind (lift (Ok b)) k) hd tr = try_catch (k b) hd tr.
Proof. reflexivity. Qed.

Lemma try_setOutput {A : Type} (h : host) (key : string) (v : output_value)
    (k : unit -> M A) (hd : exn -> M A) (tr : trace) :
  try_catch (bind (setOutput h key v) k) hd tr =
    match core_setOutput h tr key v with
    | Ok u => try_catch (k u) hd (tr ++ [SetOutput key v])%list
    | Throw e => hd e (tr ++ [SetOutput key v])%list
    end.
Proof.
  unfold try_catch, bind, setOutput. now destruct (core_setOutput h tr key v).
Qed.

(** Every run opens with the announcement and reaches
    [core.setOutput('message', greeting)]. *)
Lemma run_opening (h : host) :
  exists post,
    calls h = (map Info (announcement h)
                 ++ SetOutput "message" (OStr (greeting_of h)) :: post)%list.
Proof.
  unfold calls, run, run_steps.
  rewrite !try_info.
  change (createGreeting _ _) with (Ok (greeting_of h)).
  rewrite try_lift_ok, try_info, try_setOutput.
  cbn [app]. unfold announcement. cbn [map app].
  destruct (core_setOutput h _ "message" (OStr (greeting_of h))).
  - match goal with
    | |- context [try_catch ?m ?hd ?tr] =>
        assert (Hrest : only any_call (try_catch m hd))
    end.
    { repeat first
        [ apply only_fetch_stats_any
        | apply only_include_timestamp; intros
        | apply only_write_summary; intros
        | only_step ];
      exact I. }
    match goal with
    | |- context [try_catch ?m ?hd ?tr] =>
        destruct (Hrest tr) as (r & new & Hy & _)
    end.
    unfold yields in Hy. rewrite Hy. exists new. reflexivity.
  - eexists. unfold setFailed. cbn [snd app]. reflexivity.
Qed.

Lemma in_announcement (h : host) (line : string) :
  In line (announcement h) -> In (Info line) (calls h).
Proof.
  intros Hin. destruct (run_opening h) as [post ->].
  apply in_or_app. left. now apply in_map.
Qed.

(** C7. A run whose inputs [who-to-greet] and [message-prefix] are "World"
    and "Hello", or are not set, and which has no token, calls
    [core.setOutput('message', 'Hello, World!')] right after the lines that
    announce its inputs, makes no [repo-stats] output and never calls the
    fetch: the two inputs default to "World" and "Hello". *)
Theorem default_run (h : host) :
  getInput h "who-to-greet" = "World" \/ getInput h "who-to-greet" = "" ->
  getInput h "message-prefix" = "Hello" \/ getInput h "message-prefix" = "" ->
  getInput h "github-token" = "" ->
  (exists post,
      calls h = (map Info (announcement h)
                   ++ SetOutput "message" (OStr "Hello, World!") :: post)%list) /\
  In (Info "Generated greeting: Hello, World!") (calls h) /\
  In (SetOutput "message" (OStr "Hello, World!")) (calls h) /\
  (forall v, ~ In (SetOutput "repo-stats" v) (calls h)) /\
  (forall auth owner repo, ~ In (ReposGet auth owner repo) (calls h)).
Proof.
  intros Hwho Hprefix Htoken.
  assert (Hgreeting : greeting_of h = "Hello, World!").
  { unfold greeting_of. destruct Hwho as [-> | ->], Hprefix as [-> | ->]; reflexivity. }
  assert (Hskip : forall c, In c (calls h) -> not_stats_call c).
  { apply Forall_forall, run_without_stats.
    unfold token_present. intros [Ht _]. now apply Ht. }
  destruct (run_opening h) as [post Hcalls]. rewrite Hgreeting in Hcalls.
  repeat split.
  - now exists post.
  - apply in_announcement. unfold announcement. rewrite Hgreeting.
    do 5 right. now left.
  - rewrite Hcalls. apply in_or_app. right. now left.
  - intros v Hin. now apply (Hskip _ Hin).
  - intros auth owner repo Hin. exact (Hskip _ Hin).
Qed.

Lemma default_run_witness :
  let h := TestHosts.mock TestHosts.default_inputs in
  (getInput h "who-to-greet" = "World" \/ getInput h "who-to-greet" = "") /\
  (getInput h "message-prefix" = "Hello" \/ getInput h "message-prefix" = "") /\
  getInput h "github-token" = "" /\
  (exists post,
      calls h = (map Info (announcement h)
                   ++ SetOutput "message" (OStr "Hello, World!") :: post)%list) /\
  In (Info "Generated greeting: Hello, World!") (calls h) /\
  In (SetOutput "message" (OStr "Hello, World!")) (calls h) /\
  (forall v, ~ In (SetOutput "repo-stats" v) (calls h)) /\
  (forall auth owner repo, ~ In (ReposGet auth owner repo) (calls h)).
Proof.
  split; [left; reflexivity |].
  split; [left; reflexivity |].
  split; [reflexivity |].
  apply (default_run (TestHosts.mock TestHosts.default_inputs));
    [left; reflexivity | left; reflexivity | reflexivity].
Defined.

(** ** Exceptions that escape a step *)

Section Tidy.

Variable h : host.











End Tidy.

Lemma run_cases (h : host) :
  forall r tr,
    run_steps h [] = (r, tr) ->
    match r with
    | Ok _ => run h [] = (Ok tt, tr)
    | Throw e => run h [] = (Ok tt, (tr ++ [failure_report h e])%list)
    end.
Proof.
  intros r tr Hsteps. unfold run, try_catch. rewrite Hsteps.
  destruct r as [[]|e]; reflexivity.
Qed.




(** ** The log fallback of the summary *)

Section Hoare.

Variable P : call -> Prop.

Lemma hoare_only {A : Type} (m : M A) : only P m -> hoare P m (fun _ => True).
Proof.
  intros Hm tr. destruct (Hm tr) as (r & new & Hy & HP).
  exists r, new. auto.
Qed.

Lemma hoare_weaken {A : Type} (m : M A) (Q Q' : A -> Prop) :
  hoare P m Q -> (forall a, Q a -> Q' a) -> hoare P m Q'.
Proof.
  intros Hm HQ tr. destruct (Hm tr) as (r & new & Hy & HP & Hr).
  exists r, new. auto.
Qed.

Lemma hoare_ret {A : Type} (a : A) (Q : A -> Prop) : Q a -> hoare P (ret a) Q.
Proof.
  intros HQ tr. exists (Ok a), []. unfold yields, ret. rewrite app_nil_r.
  repeat split; [constructor |]. intros a' Heq. now inversion Heq; subst.
Qed.

Lemma hoare_lift {A : Type} (r : result A) : hoare P (lift r) (fun a => r = Ok a).
Proof.
  intros tr. exists r, []. unfold yields, lift. rewrite app_nil_r.
  repeat split; [constructor | auto].
Qed.

Lemma hoare_bind {A B : Type} (m : M A) (k : A -> M B)
    (Q1 : A -> Prop) (Q2 : B -> Prop) :
  hoare P m Q1 -> (forall a, Q1 a -> hoare P (k a) Q2) -> hoare P (bind m k) Q2.
Proof.
  intros Hm Hk tr. destruct (Hm tr) as (r & n1 & Hy & HP & Hr).
  unfold yields, bind in *. rewrite Hy. destruct r as [a|e].
  - destruct (Hk a (Hr a eq_refl) (tr ++ n1)%list) as (r2 & n2 & Hy2 & HP2 & Hr2).
    exists r2, (n1 ++ n2)%list. rewrite Hy2, app_assoc.
    repeat split; [apply Forall_app; now split | assumption].
  - exists (Throw e), n1. repeat split; [assumption | discriminate].
Qed.

End Hoare.

Section Summary.

Variable h : host.

Lemma hoare_include_timestamp (includeTime : bool) :
  hoare no_summary (include_timestamp h includeTime) printable.
Proof.
  unfold include_timestamp. destruct includeTime.
  - eapply hoare_bind; [apply hoare_only, only_getCurrentTime |].
    intros currentTime _.
    eapply hoare_bind; [apply hoare_only, only_info; exact I |]. intros _ _.
    eapply hoare_bind; [apply hoare_only, only_setOutput; exact I |]. intros _ _.
    apply hoare_ret. now exists currentTime.
  - apply hoare_ret. now exists "null".
Qed.

Lemma hoare_report_stats (stats : RepoStats) :
  hoare no_summary (report_stats h stats)
    (fun _ => printable_stats (Some stats)).
Proof.
  unfold report_stats.
  eapply hoare_bind; [apply hoare_lift |]. intros s1 Hname.
  eapply hoare_bind; [apply hoare_only, only_info; exact I |]. intros _ _.
  eapply hoare_bind; [apply hoare_lift |]. intros s2 _.
  eapply hoare_bind; [apply hoare_only, only_info; exact I |]. intros _ _.
  eapply hoare_bind; [apply hoare_lift |]. intros s3 _.
  eapply hoare_bind; [apply hoare_only, only_info; exact I |]. intros _ _.
  eapply hoare_bind; [apply hoare_lift |]. intros s4 _.
  eapply hoare_bind; [apply hoare_only, only_info; exact I |]. intros _ _.
  eapply hoare_bind; [apply hoare_lift |]. intros s5 Hlanguage.
  eapply hoare_bind; [apply hoare_only, only_info; exact I |]. intros _ _.
  eapply hoare_weaken; [apply hoare_only, only_setOutput; exact I |].
  intros _ _. split; [now exists s1 | now exists s5].
Qed.

Lemma hoare_fetch_stats (token : string) :
  hoare no_summary (fetch_stats h token) printable_stats.
Proof.
  assert (Hskip : hoare no_summary (ret (@None RepoStats)) printable_stats)
    by (apply hoare_ret; exact I).
  unfold fetch_stats, context_repo_owner, context_repo_repo.
  destruct (nonempty token); [| exact Hskip].
  eapply hoare_bind; [apply hoare_only, only_lift |]. intros owner _.
  destruct (nonempty owner); [| exact Hskip].
  eapply hoare_bind; [apply hoare_only, only_lift |]. intros repo _.
  destruct (nonempty repo); [| exact Hskip].
  eapply hoare_bind; [apply hoare_only, only_info; exact I |]. intros _ _.
  eapply hoare_bind; [apply hoare_only, only_lift |]. intros owner' _.
  eapply hoare_bind; [apply hoare_only, only_lift |]. intros repo' _.
  eapply hoare_bind;
    [apply hoare_only, only_getRepoStats; intros; exact I |].
  intros [stats|] _; [| exact Hskip].
  eapply hoare_bind; [apply hoare_report_stats |]. intros u Hstats.
  now apply hoare_ret.
Qed.

(** The rows built at lines 164-180 can all be printed, the header row
    included. *)
Lemma summaryTable_rows (greeting : string) (includeTime : bool)
    (currentTime : value) (repoStats : option RepoStats) (t : table) :
  printable currentTime -> printable_stats repoStats ->
  summaryTable greeting includeTime currentTime repoStats = Ok t ->
  Forall (fun r => exists line, row_text r line) t.
Proof.
  intros [time Htime] Hstats. unfold summaryTable.
  assert (Hrow : forall label v s,
             to_str v = Ok s ->
             exists line, row_text (Cell (VStr label), Cell v) line).
  { intros label v s Hs. exists ("   " ++ label ++ ": " ++ s), label, s. auto. }
  assert (Hhead : exists line, row_text (HeaderCell "Field", HeaderCell "Value") line).
  { eexists; eexists; eexists; repeat split; reflexivity. }
  destruct repoStats as [stats|]; simpl.
  - destruct Hstats as [[n Hn] [l Hl]].
    destruct (toString (stars stats)) as [s1|]; [| discriminate]; simpl.
    destruct (toString (forks stats)) as [s2|]; [| discriminate]; simpl.
    destruct (toString (issues stats)) as [s3|]; [| discriminate]; simpl.
    intros [= <-].
    destruct includeTime; simpl; repeat constructor;
      solve [ exact Hhead | eapply Hrow; first [eassumption | reflexivity] ].
  - intros [= <-].
    destruct includeTime; simpl; repeat constructor;
      solve [ exact Hhead | eapply Hrow; first [eassumption | reflexivity] ].
Qed.

(** The loop of lines 188-190 logs one line per row. *)
Lemma log_rows (rows : table) :
  Forall (fun r => exists line, row_text r line) rows ->
  forall tr, exists lines,
    Forall2 row_text rows lines /\
    for_of rows log_row tr = (Ok tt, (tr ++ map Info lines)%list).
Proof.
  induction 1 as [| [field v] rows [line Hline] _ IH]; intros tr.
  - exists []. split; [constructor |]. simpl. unfold ret. now rewrite app_nil_r.
  - destruct (IH (tr ++ [Info line])%list) as (lines & Hlines & Hrun).
    exists (line :: lines). split; [now constructor |].
    destruct Hline as (f & s & Hf & Hs & ->). simpl in Hf, Hs.
    assert (Hrow : log_row (field, v) tr
                   = (Ok tt, (tr ++ [Info ("   " ++ f ++ ": " ++ s)])%list)).
    { unfold log_row, bind, lift, info. now rewrite Hf, Hs. }
    change (for_of ((field, v) :: rows) log_row tr)
      with (bind (log_row (field, v)) (fun _ => for_of rows log_row) tr).
    unfold bind. rewrite Hrow, Hrun, <- app_assoc. reflexivity.
Qed.

End Summary.

Lemma no_summary_split (l pre post : trace) (hd : string) (t : table) :
  Forall no_summary l -> l <> (pre ++ SummaryWrite hd t :: post)%list.
Proof.
  intros Hl ->. apply Forall_app in Hl as [_ Hl]. now inversion Hl.
Qed.

Lemma first_summary (c0 : call) (rest pre post : trace) (hd : string) (t : table) :
  Forall no_summary rest ->
  (c0 :: rest = pre ++ SummaryWrite hd t :: post)%list ->
  pre = [] /\ c0 = SummaryWrite hd t /\ post = rest.
Proof.
  intros Hrest Heq. destruct pre as [| c pre]; simpl in Heq.
  - now inversion Heq.
  - inversion Heq; subst. exfalso.
    exact (no_summary_split _ _ _ _ _ Hrest eq_refl).
Qed.

Section Fallback.

Variable h : host.

Lemma falls_back_prefix {A : Type} (m : M A) (k : A -> M unit) (Q : A -> Prop) :
  hoare no_summary m Q ->
  (forall a, Q a -> falls_back h (k a)) ->
  falls_back h (bind m k).
Proof.
  intros Hm Hk tr. destruct (Hm tr) as (r & n1 & Hy & HP & Hr).
  unfold yields, bind in *. rewrite Hy. destruct r as [a|e0].
  - destruct (Hk a (Hr a eq_refl) (tr ++ n1)%list) as (r2 & n2 & Hy2 & Hfb).
    exists r2, (n1 ++ n2)%list. rewrite Hy2, app_assoc. split; [reflexivity |].
    intros pre hd t post e Heq Hthrow.
    apply app_eq_app in Heq as [l [[Hn1 Hrest] | [Hpre Hn2]]].
    + destruct l as [| c l]; simpl in Hrest.
      * subst n2. rewrite app_nil_r in Hn1. subst n1.
        apply (Hfb [] hd t post e); [reflexivity | now rewrite app_nil_r].
      * inversion Hrest; subst. exfalso.
        exact (no_summary_split _ _ _ _ _ HP eq_refl).
    + subst pre. apply (Hfb l hd t post e Hn2). now rewrite <- app_assoc.
  - exists (Throw e0), n1. split; [reflexivity |].
    intros pre hd t post e Heq _. exfalso.
    exact (no_summary_split _ _ _ _ _ HP Heq).
Qed.

Lemma falls_back_write_summary (t : table) :
  Forall (fun r => exists line, row_text r line) (skipn 1 t) ->
  falls_back h (bind (write_summary h t) (fun _ => info completion_line)).
Proof.
  intros Hrows tr.
  destruct (log_rows (skipn 1 t) Hrows
              ((tr ++ [SummaryWrite summary_heading t]) ++ [Info fallback_heading])%list)
    as (lines & Hlines & Hloop).
  unfold yields, write_summary, try_catch, summary_addHeading_addTable_write.
  unfold bind, info.
  destruct (summary_write h tr summary_heading t) as [[]|e0] eqn:Hwrite.
  - exists (Ok tt), [SummaryWrite summary_heading t; Info completion_line].
    split; [now rewrite <- app_assoc |].
    intros pre hd t' post e Heq Hthrow.
    apply first_summary in Heq as (-> & [= <- <-] & _);
      [| repeat constructor].
    rewrite app_nil_r in Hthrow. congruence.
  - rewrite Hloop.
    exists (Ok tt),
      (SummaryWrite summary_heading t
         :: Info fallback_heading :: map Info lines ++ [Info completion_line])%list.
    split.
    + f_equal. rewrite <- !app_assoc. reflexivity.
    + intros pre hd t' post e Heq Hthrow.
      apply first_summary in Heq as (-> & [= <- <-] & ->).
      * split; [reflexivity |]. now exists lines.
      * constructor; [exact I |]. apply Forall_app. split; [| repeat constructor].
        apply Forall_forall. intros c Hc. apply in_map_iff in Hc as (s & <- & _).
        exact I.
Qed.

Lemma falls_back_run_steps : falls_back h (run_steps h).
Proof.
  unfold run_steps.
  do 5 (eapply falls_back_prefix;
        [apply hoare_only, only_info; exact I | intros _ _]).
  eapply falls_back_prefix; [apply hoare_lift | intros greeting _].
  eapply falls_back_prefix;
    [apply hoare_only, only_info; exact I | intros _ _].
  eapply falls_back_prefix;
    [apply hoare_only, only_setOutput; exact I | intros _ _].
  eapply falls_back_prefix;
    [apply hoare_include_timestamp | intros currentTime Htime].
  eapply falls_back_prefix;
    [apply hoare_fetch_stats | intros repoStats Hstats].
  eapply falls_back_prefix;
    [apply hoare_only, only_setSecret; exact I | intros _ _].
  eapply falls_back_prefix; [apply hoare_lift | intros t Ht].
  apply falls_back_write_summary.
  apply summaryTable_rows in Ht; [| assumption | assumption].
  destruct t as [| header rows]; [constructor | now inversion Ht].
Qed.

End Fallback.

(** C8, amended. In every run, when the summary write throws, the run
    logs the heading of the fallback, then one line ["   field: value"] for
    each row of the summary table except its first row, the header, then
    the completion line; the [try] block ends normally and [run()]
    returns. *)
Theorem summary_fallback (h : host) (pre : trace) (hd : string) (t : table)
    (post : trace) (e : exn) :
  calls h = (pre ++ SummaryWrite hd t :: post)%list ->
  summary_write h pre hd t = Throw e ->
  fallback_lines t post /\
  run_steps h [] = (Ok tt, calls h) /\
  outcome h = Ok tt.
Proof.
  intros Hcalls Hthrow.
  destruct (falls_back_run_steps h []) as (r & new & Hy & Hfb).
  unfold yields in Hy. simpl in Hy.
  pose proof (run_cases h r new Hy) as Hrun.
  unfold calls, outcome in *.
  destruct r as [[]|e0]; rewrite Hrun in *; simpl in *.
  - destruct (Hfb pre hd t post e Hcalls Hthrow) as [_ Hlines].
    now rewrite Hy.
  - exfalso.
    apply app_eq_app in Hcalls as [l [[Hnew Hrest] | [Hpre Hrest]]].
    + destruct l as [| c l]; simpl in Hrest.
      * inversion Hrest.
      * inversion Hrest; subst.
        destruct (Hfb pre hd t l e eq_refl Hthrow) as [Habs _]. discriminate.
    + destruct l as [| c l]; simpl in Hrest.
      * inversion Hrest.
      * inversion Hrest as [[Hc Hnil]]. now destruct l.
Qed.

Lemma summary_fallback_witness :
  let h := TestHosts.summary_unavailable (TestHosts.mock TestHosts.token_inputs) in
  let t := [ (HeaderCell "Field", HeaderCell "Value");
             (Cell (VStr "Greeting"), Cell (VStr "Hello, World!"));
             (Cell (VStr "Repository"), Cell (VStr "test-owner/test-repo"));
             (Cell (VStr label_stars), Cell (VStr "42"));
             (Cell (VStr label_forks), Cell (VStr "7"));
             (Cell (VStr label_issues), Cell (VStr "3"));
             (Cell (VStr label_language), Cell (VStr "JavaScript")) ] in
  calls h = (firstn 16 (calls h) ++ SummaryWrite summary_heading t
               :: skipn 17 (calls h))%list /\
  summary_write h (firstn 16 (calls h)) summary_heading t
    = Throw (Error "Summary unavailable") /\
  fallback_lines t (skipn 17 (calls h)) /\
  run_steps h [] = (Ok tt, calls h) /\
  outcome h = Ok tt.
Proof.
  split; [reflexivity |]. split; [reflexivity |].
  exact (summary_fallback
           (TestHosts.summary_unavailable (TestHosts.mock TestHosts.token_inputs))
           (firstn 16 (calls (TestHosts.summary_unavailable
                                (TestHosts.mock TestHosts.token_inputs))))
           summary_heading _
           (skipn 17 (calls (TestHosts.summary_unavailable
                               (TestHosts.mock TestHosts.token_inputs))))
           (Error "Summary unavailable") eq_refl eq_refl).
Defined.

(** C8 as stated fails: the header row of the table is not written to the
    log. *)
Lemma header_row_not_logged :
  ~ fallback_logs_every_row
      (TestHosts.summary_unavailable (TestHosts.mock TestHosts.default_inputs)).
Proof.
  intros Hall.
  destruct (Hall
      (firstn 8 (calls (TestHosts.summary_unavailable (TestHosts.mock TestHosts.default_inputs))))
      summary_heading
      [ (HeaderCell "Field", HeaderCell "Value");
        (Cell (VStr "Greeting"), Cell (VStr "Hello, World!")) ]
      [ Info fallback_heading; Info "   Greeting: Hello, World!"; Info completion_line ]
      (Error "Summary unavailable") eq_refl eq_refl) as [Hrows _].
  destruct (Hrows (HeaderCell "Field", HeaderCell "Value") (or_introl eq_refl))
    as (line & (f & v & [= <-] & [= <-] & ->) & Hin).
  simpl in Hin. unfold fallback_heading, completion_line in Hin.
  destruct Hin as [Hin | [Hin | [Hin | []]]]; discriminate Hin.
Qed.

(** ** The token does not reach the log *)

Lemma only_any {A : Type} (P : call -> Prop) (m : M A) : only P m -> only any_call m.
Proof.
  intros Hm tr. destruct (Hm tr) as (r & new & Hy & _).
  exists r, new. split; [assumption |]. apply Forall_forall. intros; exact I.
Qed.

Lemma before_fetch_first (pre : trace) (c : call) (rest : trace) :
  Forall no_fetch pre -> is_fetch c -> before_fetch (pre ++ c :: rest)%list = pre.
Proof.
  intros Hpre Hc. induction Hpre as [| c0 pre Hc0 _ IH]; simpl.
  - now destruct c.
  - rewrite IH. now destruct c0.
Qed.

Lemma in_step_before_fetch {A : Type} (x1 x2 : result A * trace) :
  in_step x1 x2 -> before_fetch (snd x1) = before_fetch (snd x2).
Proof.
  intros [[-> _] | (pre & c1 & c2 & rest1 & rest2 & Hpre & Hc1 & Hc2 & -> & ->)].
  - reflexivity.
  - now rewrite !before_fetch_first.
Qed.

Lemma alike_same {A : Type} (m : M A) : only no_fetch m -> alike m m.
Proof.
  intros Hm. repeat split; try now apply (only_any no_fetch).
  intros tr Htr. left. split; [reflexivity |].
  destruct (Hm tr) as (r & new & Hy & HP). unfold yields in Hy. rewrite Hy.
  apply Forall_app. now split.
Qed.

Lemma alike_eq {A : Type} (m1 m2 : M A) :
  (forall tr, m1 tr = m2 tr) -> only no_fetch m1 -> alike m1 m2.
Proof.
  intros Heq Hm. destruct (alike_same m1 Hm) as (Hany & _ & Hstep).
  repeat split; [assumption | | ].
  - intros tr. destruct (Hany tr) as (r & new & Hy & HP).
    exists r, new. unfold yields in *. now rewrite <- Heq.
  - intros tr Htr. rewrite <- Heq. now apply Hstep.
Qed.

(** Sequencing: while the two sides are in step their continuations get the
    same value; after the fetch each side only adds calls. *)
Lemma alike_seq {A B : Type}
    (run1 run2 : M A) (next1 next2 : result A -> M B) :
  alike run1 run2 ->
  (forall r, alike (next1 r) (next2 r)) ->
  alike (fun tr => let (r, tr') := run1 tr in next1 r tr')
        (fun tr => let (r, tr') := run2 tr in next2 r tr').
Proof.
  intros (Hany1 & Hany2 & Hstep) Hnext.
  assert (Hgrow : forall (m : M A) (next : result A -> M B),
             only any_call m -> (forall r, only any_call (next r)) ->
             only any_call (fun tr => let (r, tr') := m tr in next r tr')).
  { intros m next Hm Hn tr. destruct (Hm tr) as (r & n1 & Hy & _).
    unfold yields in *. rewrite Hy.
    destruct (Hn r (tr ++ n1)%list) as (r2 & n2 & Hy2 & _).
    exists r2, (n1 ++ n2)%list. rewrite Hy2, app_assoc.
    split; [reflexivity |]. apply Forall_forall. intros; exact I. }
  repeat split.
  - apply Hgrow; [assumption |]. intros r. apply (Hnext r).
  - apply Hgrow; [assumption |]. intros r. apply (Hnext r).
  - intros tr Htr. destruct (Hstep tr Htr) as
      [[Heq Hfree] | (pre & c1 & c2 & rest1 & rest2 & Hpre & Hc1 & Hc2 & H1 & H2)].
    + rewrite <- Heq. destruct (run1 tr) as [r tr'].
      destruct (Hnext r) as (_ & _ & Hk). now apply Hk.
    + destruct (run1 tr) as [r1 tr1], (run2 tr) as [r2 tr2]. simpl in H1, H2.
      destruct (Hnext r1) as (Hk1 & _ & _), (Hnext r2) as (_ & Hk2 & _).
      destruct (Hk1 tr1) as (r1' & n1 & Hy1 & _), (Hk2 tr2) as (r2' & n2 & Hy2 & _).
      unfold yields in Hy1, Hy2. rewrite Hy1, Hy2. subst tr1 tr2.
      right. exists pre, c1, c2, (rest1 ++ n1)%list, (rest2 ++ n2)%list.
      simpl. rewrite <- !app_assoc. auto.
Qed.

Lemma alike_ext {A : Type} (m1 m2 m1' m2' : M A) :
  (forall tr, m1 tr = m1' tr) -> (forall tr, m2 tr = m2' tr) ->
  alike m1' m2' -> alike m1 m2.
Proof.
  intros H1 H2 (Hany1 & Hany2 & Hstep).
  repeat split.
  - intros tr. destruct (Hany1 tr) as (r & new & Hy & HP).
    exists r, new. unfold yields in *. now rewrite H1.
  - intros tr. destruct (Hany2 tr) as (r & new & Hy & HP).
    exists r, new. unfold yields in *. now rewrite H2.
  - intros tr Htr. rewrite H1, H2. now apply Hstep.
Qed.

Lemma alike_bind {A B : Type} (m1 m2 : M A) (k1 k2 : A -> M B) :
  alike m1 m2 -> (forall a, alike (k1 a) (k2 a)) ->
  alike (bind m1 k1) (bind m2 k2).
Proof.
  intros Hm Hk.
  apply (alike_ext _ _
           (fun tr => let (r, tr') := m1 tr in
                      match r with Ok a => k1 a | Throw e => throw e end tr')
           (fun tr => let (r, tr') := m2 tr in
                      match r with Ok a => k2 a | Throw e => throw e end tr')).
  - intros tr. unfold bind. now destruct (m1 tr) as [[a|e] tr'].
  - intros tr. unfold bind. now destruct (m2 tr) as [[a|e] tr'].
  - apply (alike_seq m1 m2
             (fun r => match r with Ok a => k1 a | Throw e => throw e end)
             (fun r => match r with Ok a => k2 a | Throw e => throw e end) Hm).
    intros [a|e]; [apply Hk |].
    apply alike_same. intros tr. exists (Throw e), []. unfold yields, throw.
    rewrite app_nil_r. auto.
Qed.

Lemma alike_try_catch {A : Type} (m1 m2 : M A) (hd1 hd2 : exn -> M A) :
  alike m1 m2 -> (forall e, alike (hd1 e) (hd2 e)) ->
  alike (try_catch m1 hd1) (try_catch m2 hd2).
Proof.
  intros Hm Hk.
  apply (alike_ext _ _
           (fun tr => let (r, tr') := m1 tr in
                      match r with Ok a => ret a | Throw e => hd1 e end tr')
           (fun tr => let (r, tr') := m2 tr in
                      match r with Ok a => ret a | Throw e => hd2 e end tr')).
  - intros tr. unfold try_catch. now destruct (m1 tr) as [[a|e] tr'].
  - intros tr. unfold try_catch. now destruct (m2 tr) as [[a|e] tr'].
  - apply (alike_seq m1 m2
             (fun r => match r with Ok a => ret a | Throw e => hd1 e end)
             (fun r => match r with Ok a => ret a | Throw e => hd2 e end) Hm).
    intros [a|e]; [| apply Hk].
    apply alike_same, only_ret.
Qed.

Lemma alike_for_of {A : Type} (xs : list A) (body1 body2 : A -> M unit) :
  (forall x, alike (body1 x) (body2 x)) ->
  alike (for_of xs body1) (for_of xs body2).
Proof.
  intros Hb. induction xs as [| x xs IH]; simpl.
  - apply alike_same, only_ret.
  - apply alike_bind; [apply Hb | intros _; exact IH].
Qed.

Lemma alike_fetch (h1 h2 : host) (token1 token2 owner repo : string) :
  alike (octokit_repos_get h1 token1 owner repo)
        (octokit_repos_get h2 token2 owner repo).
Proof.
  repeat split; try (apply only_repos_get; exact I).
  intros tr Htr. right.
  exists tr, (ReposGet token1 owner repo), (ReposGet token2 owner repo), [], [].
  repeat split; assumption.
Qed.

(** One step of a proof that two blocks stay in step: identical blocks
    without a fetch are closed by [alike_same]. *)
Ltac alike_step :=
  match goal with
  | |- alike (bind _ _) (bind _ _) => apply alike_bind; [| intros ?]
  | |- alike (try_catch _ _) (try_catch _ _) => apply alike_try_catch; [| intros ?]
  | |- alike (for_of _ _) (for_of _ _) => apply alike_for_of; intros ?
  | |- alike (octokit_repos_get _ _ _ _) (octokit_repos_get _ _ _ _) =>
      apply alike_fetch
  | |- alike (if ?b then _ else _) (if ?b then _ else _) => destruct b
  | |- alike (match ?o with Some _ => _ | None => _ end)
             (match ?o with Some _ => _ | None => _ end) => destruct o
  | |- alike (let '(_, _) := ?p in _) (let '(_, _) := ?p in _) => destruct p
  | |- alike ?m ?m => apply alike_same; repeat only_step; exact I
  end.

Section Secrecy.

Variables h1 h2 : host.
Hypothesis Hsame : same_but_token h1 h2.

Lemma alike_setOutput (key : string) (v : output_value) :
  alike (setOutput h1 key v) (setOutput h2 key v).
Proof.
  apply alike_eq; [| apply only_setOutput; exact I].
  intros tr. unfold setOutput. now rewrite (same_output _ _ Hsame).
Qed.

Lemma alike_summary (heading : string) (t : table) :
  alike (summary_addHeading_addTable_write h1 heading t)
        (summary_addHeading_addTable_write h2 heading t).
Proof.
  apply alike_eq; [| apply only_summary; exact I].
  intros tr. unfold summary_addHeading_addTable_write.
  now rewrite (same_summary _ _ Hsame).
Qed.

Lemma alike_getCurrentTime : alike (getCurrentTime h1) (getCurrentTime h2).
Proof.
  apply alike_eq; [| apply only_getCurrentTime].
  intros tr. unfold getCurrentTime. now rewrite (same_clock _ _ Hsame).
Qed.

Lemma message_of_same (e : exn) : message_of h1 e = message_of h2 e.
Proof. destruct e; simpl; [reflexivity | apply (same_engine _ _ Hsame)]. Qed.

Ltac alike_auto :=
  repeat first
    [ apply alike_setOutput | apply alike_summary | apply alike_getCurrentTime
    | alike_step ].

Lemma alike_include_timestamp (includeTime : bool) :
  alike (include_timestamp h1 includeTime) (include_timestamp h2 includeTime).
Proof. unfold include_timestamp. alike_auto. Qed.

Lemma alike_report_stats (stats : RepoStats) :
  alike (report_stats h1 stats) (report_stats h2 stats).
Proof. unfold report_stats. alike_auto. Qed.

Lemma alike_getRepoStats (token1 token2 owner repo : string) :
  alike (getRepoStats h1 token1 owner repo) (getRepoStats h2 token2 owner repo).
Proof.
  unfold getRepoStats. apply alike_try_catch.
  - alike_auto.
  - intros e. rewrite message_of_same. alike_auto.
Qed.

Lemma alike_fetch_stats (token1 token2 : string) :
  nonempty token1 = nonempty token2 ->
  alike (fetch_stats h1 token1) (fetch_stats h2 token2).
Proof.
  intros Hpresence.
  unfold fetch_stats, context_repo_owner, context_repo_repo.
  rewrite <- Hpresence, <- (same_context _ _ Hsame).
  repeat first
    [ apply alike_getRepoStats | apply alike_report_stats | alike_step ].
Qed.

Lemma alike_write_summary (t : table) :
  alike (write_summary h1 t) (write_summary h2 t).
Proof. unfold write_summary, log_row. alike_auto. Qed.

Lemma alike_run : alike (run h1) (run h2).
Proof.
  unfold run, run_steps, getBooleanInput.
  rewrite <- (same_who _ _ Hsame), <- (same_time _ _ Hsame),
    <- (same_prefix _ _ Hsame), <- (same_presence _ _ Hsame).
  apply alike_try_catch.
  - repeat first
      [ apply alike_include_timestamp
      | apply alike_fetch_stats; apply (same_presence _ _ Hsame)
      | apply alike_write_summary
      | apply alike_setOutput
      | alike_step ].
  - intros e. rewrite message_of_same. alike_step.
Qed.

End Secrecy.

(** C9. The run logs the presence of the token as "Yes" or "No", and the
    value of the token has no influence on the log up to the fetch: two runs
    on hosts that differ only in the value of the token, present in both or
    absent in both, make the same calls and so write the same [core.info]
    lines up to the point of the fetch of the statistics. *)
Theorem token_not_logged (h1 h2 : host) :
  same_but_token h1 h2 ->
  In (Info ("GitHub token provided: "
            ++ (if nonempty (getInput h1 "github-token") then "Yes" else "No")))
     (calls h1) /\
  before_fetch (calls h1) = before_fetch (calls h2) /\
  info_lines (before_fetch (calls h1)) = info_lines (before_fetch (calls h2)).
Proof.
  intros Hsame.
  assert (Hcalls : before_fetch (calls h1) = before_fetch (calls h2)).
  { destruct (alike_run h1 h2 Hsame) as (_ & _ & Hstep).
    apply (in_step_before_fetch (run h1 []) (run h2 [])), Hstep. constructor. }
  split; [apply in_announcement; unfold announcement; do 4 right; now left |].
  split; [exact Hcalls | now rewrite Hcalls].
Qed.

(** Two runs with different tokens, the second of which has its fetch
    rejected. *)
Lemma token_not_logged_witness :
  let h1 := TestHosts.mock TestHosts.token_inputs in
  let h2 := TestHosts.repos_get_rejects (TestHosts.mock TestHosts.other_token_inputs) in
  same_but_token h1 h2 /\
  In (Info "GitHub token provided: Yes") (calls h1) /\
  before_fetch (calls h1) = before_fetch (calls h2) /\
  info_lines (before_fetch (calls h1)) = info_lines (before_fetch (calls h2)).
Proof.
  assert (Hsame : same_but_token
                    (TestHosts.mock TestHosts.token_inputs)
                    (TestHosts.repos_get_rejects
                       (TestHosts.mock TestHosts.other_token_inputs))).
  { constructor; intros; reflexivity. }
  split; [exact Hsame |].
  exact (token_not_logged _ _ Hsame).
Defined.

(** * Further properties of the action *)

(** ** Boolean inputs (lines 54-57) *)

Lemma lower_upper_char (c : ascii) : lower_char (upper_char c) = lower_char c.
Proof. destruct c as [[] [] [] [] [] [] [] []]; reflexivity. Qed.

Lemma toLowerCase_toUpperCase (s : string) :
  toLowerCase (toUpperCase s) = toLowerCase s.
Proof.
  unfold toLowerCase, toUpperCase.
  induction s as [| c s IH]; simpl; [reflexivity |].
  now rewrite lower_upper_char, IH.
Qed.

(** X1. [getBooleanInput(name)] is true exactly when the resolved input,
    lower-cased, is "true", "1" or "yes"; an input that is not set is false;
    and the flag does not depend on the case of the input: upper-casing the
    value leaves it unchanged. *)
Theorem getBooleanInput_accepts (h : host) (name : string) :
  (getBooleanInput h name = true <->
   In (toLowerCase (getInput h name)) ["true"; "1"; "yes"]) /\
  (getInput h name = "" -> getBooleanInput h name = false) /\
  (forall h',
      getInput h' name = toUpperCase (getInput h name) ->
      getBooleanInput h' name = getBooleanInput h name).
Proof.
  repeat split.
  - unfold getBooleanInput. intros Htrue.
    apply orb_true_iff in Htrue as [Htrue | Htrue];
      [apply orb_true_iff in Htrue as [Htrue | Htrue] |];
      apply String.eqb_eq in Htrue; rewrite Htrue; simpl; auto.
  - unfold getBooleanInput. intros [<- | [<- | [<- | []]]];
      rewrite String.eqb_refl; auto using orb_true_r.
  - unfold getBooleanInput. now intros ->.
  - intros h' Hupper. unfold getBooleanInput.
    now rewrite Hupper, toLowerCase_toUpperCase.
Qed.

(** ** The name of the fallback variable (line 42) *)

Lemma in_all_ascii (c : ascii) : In c all_ascii.
Proof.
  rewrite <- (ascii_nat_embedding c). apply in_map, in_seq.
  pose proof (nat_ascii_bounded c). lia.
Qed.

Lemma for_all_ascii (f : ascii -> bool) :
  forallb f all_ascii = true -> forall c, f c = true.
Proof.
  intros Hall c. exact (proj1 (forallb_forall f all_ascii) Hall c (in_all_ascii c)).
Qed.

Lemma for_all_ascii_pairs (f : ascii -> ascii -> bool) :
  forallb (fun a => forallb (f a) all_ascii) all_ascii = true ->
  forall a b, f a b = true.
Proof.
  intros Hall a b.
  exact (for_all_ascii (f a) (for_all_ascii (fun a => forallb (f a) all_ascii) Hall a) b).
Qed.

(** Two characters give the same character of the variable exactly when
    they are akin. *)
Lemma env_char_akin (a b : ascii) :
  Ascii.eqb (env_char a) (env_char b) = akin a b.
Proof.
  apply eqb_prop.
  apply (for_all_ascii_pairs
           (fun a b => Bool.eqb (Ascii.eqb (env_char a) (env_char b)) (akin a b))).
  vm_compute. reflexivity.
Qed.

Lemma env_char_normalised (c : ascii) : normalised_char (env_char c) = true.
Proof.
  apply (for_all_ascii (fun c => normalised_char (env_char c))).
  vm_compute. reflexivity.
Qed.

Lemma env_char_ascii (c : ascii) :
  (nat_of_ascii c <? 128)%nat = true -> (nat_of_ascii (env_char c) <? 128)%nat = true.
Proof.
  intros Hc.
  assert (Hall : implb (nat_of_ascii c <? 128)%nat
                   (nat_of_ascii (env_char c) <? 128)%nat = true).
  { apply (for_all_ascii
             (fun c => implb (nat_of_ascii c <? 128)%nat
                         (nat_of_ascii (env_char c) <? 128)%nat)).
    vm_compute. reflexivity. }
  now rewrite Hc in Hall.
Qed.

Lemma map_chars_map_chars (f g : ascii -> ascii) (s : string) :
  map_chars f (map_chars g s) = map_chars (fun c => f (g c)) s.
Proof. induction s as [| c s IH]; simpl; [reflexivity | now rewrite IH]. Qed.

Lemma map_chars_length (f : ascii -> ascii) (s : string) :
  String.length (map_chars f s) = String.length s.
Proof. induction s as [| c s IH]; simpl; [reflexivity | now rewrite IH]. Qed.

Lemma in_map_chars (f : ascii -> ascii) (s : string) (c : ascii) :
  In c (list_ascii_of_string (map_chars f s)) -> exists c0, c = f c0.
Proof.
  induction s as [| c0 s IH]; simpl; [contradiction |].
  intros [<- | Hin]; [now exists c0 | now apply IH].
Qed.

Lemma env_name_chars (name : string) :
  env_name name = "INPUT_" ++ map_chars env_char name.
Proof.
  unfold env_name, toUpperCase, replace_dashes.
  now rewrite map_chars_map_chars.
Qed.

Lemma map_env_char_akin (name1 name2 : string) :
  map_chars env_char name1 = map_chars env_char name2 <->
  akin_names name1 name2 = true.
Proof.
  revert name2.
  induction name1 as [| a rest1 IH]; intros [| b rest2]; simpl;
    try (split; discriminate); [tauto |].
  rewrite andb_true_iff, <- IH, <- env_char_akin, Ascii.eqb_eq.
  split; [intros [= -> ->]; auto | intros [-> ->]; reflexivity].
Qed.

Lemma ascii_name_map_env_char (name : string) :
  ascii_name name = true -> ascii_name (map_chars env_char name) = true.
Proof.
  unfold ascii_name.
  induction name as [| c rest IH]; simpl; [reflexivity |].
  rewrite !andb_true_iff. intros [Hc Hrest].
  split; [now apply env_char_ascii | now apply IH].
Qed.

Lemma normalised_char_spec (c : ascii) :
  normalised_char c = true ->
  c <> "-"%char /\ ~ In c (list_ascii_of_string lowercase_letters).
Proof.
  unfold normalised_char. rewrite andb_true_iff, !negb_true_iff.
  intros [Hdash Hletter]. split.
  - intros ->. discriminate Hdash.
  - intros Hin.
    assert (Hex : existsb (Ascii.eqb c) (list_ascii_of_string lowercase_letters)
                  = true).
    { apply existsb_exists. exists c. split; [assumption | apply Ascii.eqb_refl]. }
    congruence.
Qed.

(** X2. For an input name of ASCII characters, the name of the fallback
    variable is [INPUT_] followed by as many characters as the input name
    has; it is ASCII again and holds no dash and none of the letters a-z;
    and another ASCII name resolves to the same variable exactly when the
    two names have one length and differ, position by position, only in
    the case of a letter or in a dash against an underscore. *)
Theorem env_name_normalised (name : string) :
  ascii_name name = true ->
  String.length (env_name name) = 6 + String.length name /\
  String.prefix "INPUT_" (env_name name) = true /\
  ascii_name (env_name name) = true /\
  (forall c, In c (list_ascii_of_string (env_name name)) ->
             c <> "-"%char /\ ~ In c (list_ascii_of_string lowercase_letters)) /\
  (forall name',
      ascii_name name' = true ->
      env_name name' = env_name name <-> akin_names name' name = true).
Proof.
  intros Hascii. rewrite env_name_chars.
  split; [| split; [| split; [| split]]].
  - simpl. now rewrite map_chars_length.
  - simpl. now destruct (map_chars env_char name).
  - apply ascii_name_map_env_char in Hascii. exact Hascii.
  - intros c Hin. apply normalised_char_spec. simpl in Hin.
    destruct Hin as [<- | [<- | [<- | [<- | [<- | [<- | Hin]]]]]];
      try reflexivity.
    apply in_map_chars in Hin as [c0 ->]. apply env_char_normalised.
  - intros name' _. rewrite env_name_chars, <- map_env_char_akin.
    simpl. split; [now intros [= ->] | now intros ->].
Qed.

(** The names [who-to-greet] and [WHO_TO_GREET] share their variable. *)
Lemma env_name_normalised_witness :
  ascii_name "who-to-greet" = true /\
  String.length (env_name "who-to-greet") = 18 /\
  ascii_name "WHO_TO_GREET" = true /\
  env_name "WHO_TO_GREET" = env_name "who-to-greet".
Proof.
  split; [reflexivity |].
  split;
    [exact (proj1 (env_name_normalised "who-to-greet" eq_refl)) |].
  split; [reflexivity |].
  exact (proj2 (proj2 (proj2 (proj2 (proj2
           (env_name_normalised "who-to-greet" eq_refl))))
           "WHO_TO_GREET" eq_refl) eq_refl).
Defined.

(** ** The stats fetcher as a whole (lines 84-107) *)

Lemma getRepoStats_cases (h : host) (tr : trace) (token owner repo : string) :
  getRepoStats h token owner repo tr =
    match repos_get h tr token owner repo with
    | Ok resp =>
        (Ok (Some {| name := own_or_undefined "full_name" (data resp);
                     stars := own_or_undefined "stargazers_count" (data resp);
                     forks := own_or_undefined "forks_count" (data resp);
                     issues := own_or_undefined "open_issues_count" (data resp);
                     language := own_or_undefined "language" (data resp);
                     size := own_or_undefined "size" (data resp);
                     created := own_or_undefined "created_at" (data resp);
                     updated := own_or_undefined "updated_at" (data resp) |}),
         (tr ++ [ReposGet token owner repo])%list)
    | Throw e =>
        (Ok None,
         (tr ++ [ReposGet token owner repo;
                 Warning ("Failed to fetch repository stats: " ++ message_of h e)])%list)
    end.
Proof.
  unfold getRepoStats, try_catch, bind, octokit_repos_get, warning, ret.
  destruct (repos_get h tr token owner repo); [reflexivity |].
  now rewrite <- app_assoc.
Qed.

(** X3. [getRepoStats] never throws, whatever the host: it makes exactly
    one fetch, as its first call, followed by at most one warning, and it
    returns [null] exactly when that fetch was rejected. *)
Theorem getRepoStats_null_iff_rejected (h : host) (tr : trace)
    (token owner repo : string) :
  exists r rest,
    getRepoStats h token owner repo tr
      = (Ok r, (tr ++ ReposGet token owner repo :: rest)%list) /\
    (r = None <-> exists e, repos_get h tr token owner repo = Throw e) /\
    (rest = [] \/ exists m, rest = [Warning m]) /\
    (rest = [] <-> r <> None).
Proof.
  rewrite getRepoStats_cases.
  destruct (repos_get h tr token owner repo) as [resp | e].
  - eexists; exists []. split; [reflexivity |].
    repeat split; try discriminate; auto.
    intros [e He]. discriminate.
  - exists None. eexists. split; [reflexivity |].
    repeat split; try discriminate; eauto.
    intros Hne. now destruct Hne.
Qed.

(** ** How a run opens (lines 115-133) *)

Lemma run_grows (h : host) {A : Type} (m : M A) (hd : exn -> M A) (tr : trace) :
  only any_call (try_catch m hd) ->
  exists new, snd (try_catch m hd tr) = (tr ++ new)%list.
Proof.
  intros Hm. destruct (Hm tr) as (r & new & Hy & _).
  exists new. unfold yields in Hy. now rewrite Hy.
Qed.

(** The rest of a run, whatever it is, only adds calls. *)
Ltac run_rest_grows :=
  repeat first
    [ apply only_fetch_stats_any
    | apply only_include_timestamp; intros
    | apply only_write_summary; intros
    | only_step ];
  exact I.

(** X4. Whatever the host, a run first logs the six lines that announce its
    inputs and then calls [core.setOutput('message', greeting)], where the
    greeting is built from a prefix and a subject that are never empty (the
    inputs, or "Hello" and "World"); when that call throws, the failure
    report is the only call that follows. *)
Theorem run_announces_then_publishes (h : host) :
  str_or (getInput h "message-prefix") "Hello" <> "" /\
  str_or (getInput h "who-to-greet") "World" <> "" /\
  createGreeting (VStr (str_or (getInput h "message-prefix") "Hello"))
                 (VStr (str_or (getInput h "who-to-greet") "World"))
    = Ok (greeting_of h) /\
  exists post,
    calls h = (map Info (announcement h)
                 ++ SetOutput "message" (OStr (greeting_of h)) :: post)%list /\
    forall e,
      core_setOutput h (map Info (announcement h)) "message" (OStr (greeting_of h))
        = Throw e ->
      post = [failure_report h e].
Proof.
  assert (Hdefault : forall s d, d <> "" -> str_or s d <> "").
  { intros s d Hd. unfold str_or. destruct (nonempty s) eqn:Hs; [| exact Hd].
    now apply nonempty_true. }
  split; [apply Hdefault; discriminate |].
  split; [apply Hdefault; discriminate |].
  split; [reflexivity |].
  unfold calls, run, run_steps.
  rewrite !try_info.
  change (createGreeting _ _) with (Ok (greeting_of h)).
  rewrite try_lift_ok, try_info, try_setOutput.
  cbn [app]. unfold announcement. cbn [map app].
  destruct (core_setOutput h _ "message" (OStr (greeting_of h))) as [u | e0].
  - match goal with
    | |- context [try_catch ?m ?hd ?tr] =>
        destruct (run_grows h m hd tr) as [new Hnew]; [run_rest_grows |]
    end.
    rewrite Hnew. exists new. split; [reflexivity | discriminate].
  - eexists. unfold setFailed. cbn [snd app]. split; [reflexivity |].
    now intros e [= <-].
Qed.

(** ** The timestamp (lines 136-141) *)

Lemma try_include_timestamp_true {A : Type} (h : host) (k : value -> M A)
    (hd : exn -> M A) (tr : trace) :
  try_catch (bind (include_timestamp h true) k) hd tr =
    let t := date_now h tr in
    let tr' := (tr ++ [Info ("Current time: " ++ t); SetOutput "time" (OStr t)])%list in
    match core_setOutput h (tr ++ [Info ("Current time: " ++ t)])%list "time" (OStr t) with
    | Ok _ => try_catch (k (VStr t)) hd tr'
    | Throw e => hd e tr'
    end.
Proof.
  cbv [try_catch bind include_timestamp getCurrentTime info setOutput ret].
  destruct (core_setOutput h _ "time" _); rewrite <- app_assoc; reflexivity.
Qed.

(** X5. The [time] output is made only when [include-time] is true.  When
    it is, and the [message] output was accepted, the run reads the clock
    once, logs "Current time: " followed by the time read, and publishes
    that same time as [time], right after the [message] output. *)
Theorem timestamp_published (h : host) :
  (getBooleanInput h "include-time" = false ->
   forall v, ~ In (SetOutput "time" v) (calls h)) /\
  (getBooleanInput h "include-time" = true ->
   forall u,
     core_setOutput h (map Info (announcement h)) "message" (OStr (greeting_of h))
       = Ok u ->
     let pre := (map Info (announcement h)
                   ++ [SetOutput "message" (OStr (greeting_of h))])%list in
     let t := date_now h pre in
     exists post,
       calls h = (pre ++ Info ("Current time: " ++ t)
                      :: SetOutput "time" (OStr t) :: post)%list).
Proof.
  split.
  - intros Hfalse v Hin.
    assert (Hrun : only not_time_output (run h)).
    { unfold run, run_steps. rewrite Hfalse.
      change (include_timestamp h false) with (@ret value VNull).
      unfold fetch_stats, context_repo_owner, context_repo_repo.
      repeat first
        [ apply only_getRepoStats; intros
        | apply only_report_stats; intros
        | apply only_write_summary; intros
        | only_step ];
      simpl; solve [exact I | discriminate]. }
    destruct (Hrun []) as (r & new & Hy & HP). unfold yields in Hy.
    unfold calls in Hin. rewrite Hy in Hin. simpl in Hin.
    apply (proj1 (Forall_forall _ _) HP) in Hin. now apply Hin.
  - intros Htrue u Hmessage.
    unfold calls, run, run_steps. rewrite Htrue.
    rewrite !try_info.
    change (createGreeting _ _) with (Ok (greeting_of h)).
    rewrite try_lift_ok, try_info, try_setOutput.
    revert Hmessage. unfold announcement. rewrite Htrue.
    cbn [map app]. intros Hmessage. rewrite Hmessage.
    rewrite try_include_timestamp_true. cbv zeta. cbn [app].
    destruct (core_setOutput h _ "time" _) as [u' | e0].
    + match goal with
      | |- context [try_catch ?m ?hd ?tr] =>
          destruct (run_grows h m hd tr) as [new Hnew]; [run_rest_grows |]
      end.
      rewrite Hnew. exists new. reflexivity.
    + eexists. unfold setFailed. cbn [snd app]. reflexivity.
Qed.

(** ** How a run ends (lines 193-196) *)

(** Closes [not_terminal c] for a call [c] of the run other than its last:
    the lines logged before the completion line differ from it in their
    first characters. *)
Ltac solve_not_terminal :=
  split;
  [ let H := fresh "H" in
    intros H; try discriminate H;
    injection H as H;
    unfold completion_line, fallback_heading, label_stars, label_forks,
      label_issues, label_language in H;
    simpl in H; discriminate H
  | intros ?; discriminate ].

Lemma finishes_prefix {A : Type} (m : M A) (k : A -> M unit) :
  only not_terminal m -> (forall a, finishes (k a)) -> finishes (bind m k).
Proof.
  intros Hm Hk tr. destruct (Hm tr) as (r & n1 & Hy & HP).
  unfold yields, bind in *. rewrite Hy. destruct r as [a | e].
  - destruct (Hk a (tr ++ n1)%list) as (r2 & n2 & Hy2 & Hend).
    exists r2, (n1 ++ n2)%list. rewrite Hy2, app_assoc. split; [reflexivity |].
    destruct r2 as [u | e].
    + destruct Hend as (body & -> & Hbody).
      exists (n1 ++ body)%list. rewrite app_assoc. split; [reflexivity |].
      apply Forall_app. now split.
    + apply Forall_app. now split.
  - now exists (Throw e), n1.
Qed.

Lemma finishes_completion : finishes (info completion_line).
Proof.
  intros tr. exists (Ok tt), [Info completion_line]. split; [reflexivity |].
  exists []. split; [reflexivity | constructor].
Qed.

Lemma finishes_run_steps (h : host) : finishes (run_steps h).
Proof.
  unfold run_steps.
  repeat (apply finishes_prefix;
          [ unfold include_timestamp, fetch_stats, context_repo_owner,
              context_repo_repo, getRepoStats, report_stats, write_summary, log_row;
            repeat only_step; solve_not_terminal
          | intros ? ]).
  apply finishes_completion.
Qed.

(** The two ways in which a run ends. *)
Lemma run_ends (h : host) :
  (exists body,
      run_steps h [] = (Ok tt, calls h) /\
      calls h = (body ++ [Info completion_line])%list /\
      Forall not_terminal body) \/
  (exists e tr,
      run_steps h [] = (Throw e, tr) /\
      calls h = (tr ++ [failure_report h e])%list /\
      Forall not_terminal tr).
Proof.
  destruct (finishes_run_steps h []) as (r & new & Hy & Hend).
  unfold yields in Hy. simpl in Hy.
  pose proof (run_cases h r new Hy) as Hrun. unfold calls.
  destruct r as [[] | e]; rewrite Hrun; simpl.
  - left. destruct Hend as (body & -> & Hbody). exists body. now rewrite Hy.
  - right. now exists e, new.
Qed.

Lemma not_terminal_absent (l : trace) :
  Forall not_terminal l ->
  ~ In (Info completion_line) l /\ forall m, ~ In (SetFailed m) l.
Proof.
  intros Hl. split; [intros Hin | intros m Hin];
    apply (proj1 (Forall_forall _ _) Hl) in Hin; destruct Hin as [H1 H2];
    [now apply H1 | now apply (H2 m)].
Qed.

(** X6. A run ends in exactly one of two ways.  Either its last call logs
    the completion line, or its last call is a failure report; the
    completion line and a failure report never occur in the same run, and
    neither occurs before the last call. *)
Theorem run_terminal_states (h : host) :
  (In (Info completion_line) (calls h) <-> forall m, ~ In (SetFailed m) (calls h)) /\
  exists body c,
    calls h = (body ++ [c])%list /\
    (c = Info completion_line \/ exists e, c = failure_report h e) /\
    ~ In (Info completion_line) body /\
    forall m, ~ In (SetFailed m) body.
Proof.
  destruct (run_ends h) as [(body & _ & Hcalls & Hbody) | (e & tr & _ & Hcalls & Htr)];
    rewrite Hcalls.
  - destruct (not_terminal_absent body Hbody) as [Hnc Hnf]. split.
    + split.
      * intros _ m Hin. apply in_app_or in Hin as [Hin | [Hin | []]];
          [now apply (Hnf m) | discriminate].
      * intros _. apply in_or_app. right. now left.
    + exists body, (Info completion_line).
      split; [reflexivity |]. split; [now left |]. now split.
  - destruct (not_terminal_absent tr Htr) as [Hnc Hnf]. split.
    + split.
      * intros Hin. apply in_app_or in Hin as [Hin | [Hin | []]];
          [now destruct (Hnc Hin) | discriminate].
      * intros Hall. exfalso.
        apply (Hall ("Action failed with error: " ++ message_of h e)).
        apply in_or_app. right. now left.
    + exists tr, (failure_report h e).
      split; [reflexivity |]. split; [right; now exists e |]. now split.
Qed.

(** ** The block that fetches the statistics (lines 144-158) *)

(** What [report_stats] calls: up to five log lines, then the output.  It
    returns only after the output. *)
Lemma report_stats_shape (h : host) (stats : RepoStats) (tr : trace) :
  exists r lines out,
    report_stats h stats tr = (r, (tr ++ map Info lines ++ out)%list) /\
    (out = [] \/
     out = [SetOutput "repo-stats" (OJson stats)] /\ stats_lines stats lines) /\
    (forall u, r = Ok u -> out <> []).
Proof.
  cbv [report_stats bind lift info setOutput].
  destruct (to_str (name stats)) as [s1 | e] eqn:H1;
    [| exists (Throw e), [], []; cbn [map app]; rewrite app_nil_r;
       split; [reflexivity | split; [auto | discriminate]]].
  destruct (to_str (stars stats)) as [s2 | e] eqn:H2;
    [| exists (Throw e), ["Repository: " ++ s1], []; cbn [map app];
       split; [reflexivity | split; [auto | discriminate]]].
  destruct (to_str (forks stats)) as [s3 | e] eqn:H3;
    [| exists (Throw e), ["Repository: " ++ s1; label_stars ++ ": " ++ s2], [];
       cbn [map app]; rewrite <- !app_assoc;
       split; [reflexivity | split; [auto | discriminate]]].
  destruct (to_str (issues stats)) as [s4 | e] eqn:H4;
    [| exists (Throw e),
         ["Repository: " ++ s1; label_stars ++ ": " ++ s2;
          label_forks ++ ": " ++ s3], [];
       cbn [map app]; rewrite <- !app_assoc;
       split; [reflexivity | split; [auto | discriminate]]].
  destruct (to_str (js_or (language stats) (VStr "Unknown"))) as [s5 | e] eqn:H5;
    [| exists (Throw e),
         ["Repository: " ++ s1; label_stars ++ ": " ++ s2;
          label_forks ++ ": " ++ s3; label_issues ++ ": " ++ s4], [];
       cbn [map app]; rewrite <- !app_assoc;
       split; [reflexivity | split; [auto | discriminate]]].
  eexists.
  exists ["Repository: " ++ s1; label_stars ++ ": " ++ s2;
          label_forks ++ ": " ++ s3; label_issues ++ ": " ++ s4;
          label_language ++ ": " ++ s5],
         [SetOutput "repo-stats" (OJson stats)].
  cbn [map app]. rewrite <- !app_assoc. cbn [app].
  split; [reflexivity |]. split; [| discriminate].
  right. split; [reflexivity |]. now exists s1, s2, s3, s4, s5.
Qed.

(** What the block calls: nothing, or the line "Fetching repository
    statistics...", one fetch with the token and the identity of the
    context, and then either the warning of a rejected fetch or the report
    of the statistics of the response. *)
Lemma fetch_stats_shape (h : host) (token : string) (tr : trace) :
  (exists r, fetch_stats h token tr = (r, tr)) \/
  (exists owner repo r rest,
      context_repo h = Ok (owner, repo) /\
      fetch_stats h token tr =
        (r, (tr ++ Info "Fetching repository statistics..."
                :: ReposGet token owner repo :: rest)%list) /\
      let pre := (tr ++ [Info "Fetching repository statistics..."])%list in
      ((exists e,
           repos_get h pre token owner repo = Throw e /\
           rest = [Warning ("Failed to fetch repository stats: " ++ message_of h e)]) \/
       (exists resp lines out,
           repos_get h pre token owner repo = Ok resp /\
           rest = (map Info lines ++ out)%list /\
           (out = [] \/
            out = [SetOutput "repo-stats" (OJson (stats_of resp))] /\
            stats_lines (stats_of resp) lines)))).
Proof.
  unfold fetch_stats, context_repo_owner, context_repo_repo.
  destruct (nonempty token); [| left; eexists; reflexivity].
  destruct (context_repo h) as [[owner repo] | e] eqn:Hcontext;
    [| left; eexists; reflexivity].
  cbv [bind lift rbind fst snd].
  destruct (nonempty owner); [| left; eexists; reflexivity].
  destruct (nonempty repo); [| left; eexists; reflexivity].
  right. exists owner, repo. cbv [info ret].
  rewrite getRepoStats_cases.
  destruct (repos_get h _ token owner repo) as [resp | e] eqn:Hfetch.
  - fold (stats_of resp).
    destruct (report_stats_shape h (stats_of resp)
                ((tr ++ [Info "Fetching repository statistics..."])
                   ++ [ReposGet token owner repo])%list)
      as (r & lines & out & Hreport & Hout & _).
    rewrite Hreport.
    exists (match r with Ok _ => Ok (Some (stats_of resp)) | Throw e => Throw e end),
           (map Info lines ++ out)%list.
    split; [reflexivity |]. split.
    + rewrite <- !app_assoc. cbn [app]. now destruct r.
    + right. now exists resp, lines, out.
  - eexists. eexists. split; [reflexivity |]. split.
    + rewrite <- !app_assoc. cbn [app]. reflexivity.
    + left. now exists e.
Qed.

Section Around.

Variable h : host.
Variable token : string.

Lemma around_only {A : Type} (m : M A) :
  only not_stats_call m -> around h token m.
Proof.
  intros Hm tr. destruct (Hm tr) as (r & new & Hy & HP).
  exists r, new, new, [], []. cbn [app]. rewrite app_nil_r.
  repeat split; auto.
Qed.

Lemma around_fetch_stats : around h token (fetch_stats h token).
Proof.
  intros tr. destruct (only_fetch_stats_any h token tr) as (r & new & Hy & _).
  exists r, new, [], new, []. unfold yields in *.
  split; [exact Hy |]. split; [cbn [app]; now rewrite app_nil_r |].
  split; [constructor |]. split; [constructor |].
  right. exists r. rewrite !app_nil_r. exact Hy.
Qed.

Lemma around_prefix {A B : Type} (m : M A) (k : A -> M B) :
  only not_stats_call m -> (forall a, around h token (k a)) ->
  around h token (bind m k).
Proof.
  intros Hm Hk tr. destruct (Hm tr) as (r & n1 & Hy & HP).
  unfold yields, bind in *. rewrite Hy. destruct r as [a | e].
  - destruct (Hk a (tr ++ n1)%list)
      as (r2 & n2 & p & mid & q & Hy2 & -> & Hp & Hq & Hmid).
    unfold yields in Hy2. rewrite Hy2.
    exists r2, (n1 ++ p ++ mid ++ q)%list, (n1 ++ p)%list, mid, q.
    rewrite <- !app_assoc. repeat split; auto.
    + apply Forall_app. now split.
    + destruct Hmid as [-> | [r' Hr']]; [now left | right].
      exists r'. rewrite <- !app_assoc in *. exact Hr'.
  - exists (Throw e), n1, n1, [], []. cbn [app]. rewrite app_nil_r.
    repeat split; auto.
Qed.

Lemma around_then {A B : Type}
    (m : M A) (next : result A -> M B) :
  around h token m -> (forall r, only not_stats_call (next r)) ->
  around h token (fun tr => let (r, tr') := m tr in next r tr').
Proof.
  intros Hm Hk tr.
  destruct (Hm tr) as (r & n1 & p & mid & q & Hy & -> & Hp & Hq & Hmid).
  unfold yields in *. rewrite Hy.
  destruct (Hk r (tr ++ p ++ mid ++ q)%list) as (r2 & n2 & Hy2 & HP2).
  unfold yields in Hy2. rewrite Hy2.
  exists r2, ((p ++ mid ++ q) ++ n2)%list, p, mid, (q ++ n2)%list.
  rewrite <- !app_assoc. repeat split; auto.
  - apply Forall_app. now split.
  - destruct Hmid as [-> | [r' Hr']]; [now left | right].
    exists r'. now rewrite <- app_assoc in Hr'.
Qed.

Lemma around_ext {A : Type} (m m' : M A) :
  (forall tr, m tr = m' tr) -> around h token m' -> around h token m.
Proof.
  intros Heq Hm tr.
  destruct (Hm tr) as (r & new & p & mid & q & Hy & Hrest).
  exists r, new, p, mid, q. unfold yields in *. now rewrite Heq.
Qed.

Lemma around_suffix {A B : Type} (m : M A) (k : A -> M B) :
  around h token m -> (forall a, only not_stats_call (k a)) ->
  around h token (bind m k).
Proof.
  intros Hm Hk.
  apply (around_ext _
           (fun tr => let (r, tr') := m tr in
                      match r with Ok a => k a | Throw e => throw e end tr')).
  - intros tr. unfold bind. now destruct (m tr) as [[a | e] tr'].
  - apply around_then; [assumption |].
    intros [a | e]; [apply Hk |].
    intros tr. exists (Throw e), []. unfold yields, throw.
    rewrite app_nil_r. auto.
Qed.

Lemma around_try {A : Type} (m : M A) (hd : exn -> M A) :
  around h token m -> (forall e, only not_stats_call (hd e)) ->
  around h token (try_catch m hd).
Proof.
  intros Hm Hk.
  apply (around_ext _
           (fun tr => let (r, tr') := m tr in
                      match r with Ok a => ret a | Throw e => hd e end tr')).
  - intros tr. unfold try_catch. now destruct (m tr) as [[a | e] tr'].
  - apply around_then; [assumption |].
    intros [a | e]; [apply only_ret | apply Hk].
Qed.

End Around.

(** The calls of a run: those of the block of lines 144-158, between calls
    that are neither a fetch nor a [repo-stats] output. *)
Lemma run_around_fetch (h : host) :
  exists p mid q,
    calls h = (p ++ mid ++ q)%list /\
    Forall not_stats_call p /\ Forall not_stats_call q /\
    (mid = [] \/
     exists r, fetch_stats h (getInput h "github-token") p = (r, (p ++ mid)%list)).
Proof.
  assert (Hrun : around h (getInput h "github-token") (run h)).
  { unfold run, run_steps.
    apply around_try; [| intros e; apply only_setFailed; exact I].
    do 8 (apply around_prefix;
          [ repeat only_step; simpl; solve [exact I | discriminate] | intros ? ]).
    apply around_prefix;
      [ apply only_include_timestamp; intros; simpl; solve [exact I | discriminate]
      | intros currentTime ].
    apply around_suffix; [apply around_fetch_stats | intros repoStats].
    repeat first
      [ apply only_write_summary; intros | only_step ];
      simpl; solve [exact I | discriminate]. }
  destruct (Hrun []) as (r & new & p & mid & q & Hy & -> & Hp & Hq & Hmid).
  unfold yields in Hy. exists p, mid, q. unfold calls. rewrite Hy.
  repeat split; auto.
Qed.

(** Where a call of one kind sits among calls of another kind. *)
Section Split.

Variables N D : call -> Prop.
Hypothesis exclusive : forall c, N c -> D c -> False.

Lemma split_absent (l pre post : trace) (c : call) :
  Forall N l -> D c -> l <> (pre ++ c :: post)%list.
Proof.
  intros Hl Hc ->. apply Forall_app in Hl as [_ Hl].
  inversion Hl; subst. eauto.
Qed.

Lemma split_unique (p q pre post : trace) (c c' : call) :
  Forall N p -> Forall N q -> D c' ->
  (p ++ c :: q = pre ++ c' :: post)%list ->
  pre = p /\ c = c' /\ post = q.
Proof.
  intros Hp Hq Hc'. revert pre.
  induction Hp as [| x p Hx Hp IH]; intros pre Heq.
  - destruct pre as [| y pre]; simpl in Heq.
    + now inversion Heq.
    + inversion Heq; subst. exfalso.
      exact (split_absent _ _ _ _ Hq Hc' eq_refl).
  - destruct pre as [| y pre]; simpl in Heq.
    + inversion Heq; subst. exfalso. eauto.
    + inversion Heq; subst.
      destruct (IH pre) as (-> & -> & ->); auto.
Qed.

End Split.

Lemma fetch_exclusive (c : call) : no_fetch c -> is_fetch c -> False.
Proof. now destruct c. Qed.

Lemma stats_output_exclusive (c : call) :
  not_stats_output c -> is_stats_output c -> False.
Proof. destruct c; simpl; auto. Qed.

Lemma not_stats_call_no_fetch (l : trace) :
  Forall not_stats_call l -> Forall no_fetch l.
Proof. apply Forall_impl. now intros []. Qed.

Lemma not_stats_call_no_output (l : trace) :
  Forall not_stats_call l -> Forall not_stats_output l.
Proof. apply Forall_impl. now intros []. Qed.

Lemma infos_no_fetch (lines : list string) : Forall no_fetch (map Info lines).
Proof. induction lines; simpl; constructor; auto. exact I. Qed.

Lemma infos_no_output (lines : list string) :
  Forall not_stats_output (map Info lines).
Proof. induction lines; simpl; constructor; auto. exact I. Qed.

(** The calls of the block within a run, when it makes any. *)
Lemma run_fetch_block (h : host) :
  Forall not_stats_call (calls h) \/
  exists p q owner repo rest,
    calls h = (p ++ Info "Fetching repository statistics..."
                 :: ReposGet (getInput h "github-token") owner repo
                 :: rest ++ q)%list /\
    Forall not_stats_call p /\ Forall not_stats_call q /\
    context_repo h = Ok (owner, repo) /\
    let pre := (p ++ [Info "Fetching repository statistics..."])%list in
    ((exists e,
         repos_get h pre (getInput h "github-token") owner repo = Throw e /\
         rest = [Warning ("Failed to fetch repository stats: " ++ message_of h e)]) \/
     (exists resp lines out,
         repos_get h pre (getInput h "github-token") owner repo = Ok resp /\
         rest = (map Info lines ++ out)%list /\
         (out = [] \/
          out = [SetOutput "repo-stats" (OJson (stats_of resp))] /\
          stats_lines (stats_of resp) lines))).
Proof.
  destruct (run_around_fetch h) as (p & mid & q & Hcalls & Hp & Hq & Hmid).
  assert (Hnone : mid = [] -> Forall not_stats_call (calls h)).
  { intros ->. rewrite Hcalls. apply Forall_app. now split. }
  destruct Hmid as [Hmid | [r Hr]]; [left; now apply Hnone |].
  destruct (fetch_stats_shape h (getInput h "github-token") p)
    as [[r0 Hskip] | (owner & repo & r0 & rest & Hcontext & Hrun & Hrest)].
  - left. apply Hnone. rewrite Hskip in Hr. inversion Hr as [[Hr0 Hp0]].
    rewrite <- (app_nil_r p) in Hp0 at 1. now apply app_inv_head in Hp0.
  - right. rewrite Hrun in Hr. inversion Hr as [[Hr0 Hmid]].
    apply app_inv_head in Hmid. subst mid.
    exists p, q, owner, repo, rest. rewrite Hcalls. cbn [app].
    repeat split; auto.
Qed.

(** X7. A run makes at most one fetch.  When it makes one, the fetch is
    called with the resolved token and with the owner and the repository of
    the context, and the call right before it logs "Fetching repository
    statistics...". *)
Theorem fetch_made_once (h : host) (pre : trace) (auth owner repo : string)
    (post : trace) :
  calls h = (pre ++ ReposGet auth owner repo :: post)%list ->
  auth = getInput h "github-token" /\
  context_repo h = Ok (owner, repo) /\
  (exists pre', pre = (pre' ++ [Info "Fetching repository statistics..."])%list) /\
  Forall no_fetch pre /\ Forall no_fetch post.
Proof.
  intros Hcalls.
  destruct (run_fetch_block h)
    as [Hnone | (p & q & o & r & rest & Hshape & Hp & Hq & Hcontext & Hrest)].
  - exfalso. apply not_stats_call_no_fetch in Hnone.
    exact (split_absent no_fetch is_fetch fetch_exclusive (calls h) pre post
             (ReposGet auth owner repo) Hnone I Hcalls).
  - assert (Hrest' : Forall no_fetch (rest ++ q)).
    { apply Forall_app. split; [| now apply not_stats_call_no_fetch].
      destruct Hrest as [(e & _ & ->) | (resp & lines & out & _ & -> & Hout)].
      - repeat constructor.
      - apply Forall_app. split; [apply infos_no_fetch |].
        destruct Hout as [-> | [-> _]]; repeat constructor. }
    assert (Hpre : Forall no_fetch (p ++ [Info "Fetching repository statistics..."])).
    { apply Forall_app. split; [now apply not_stats_call_no_fetch |].
      repeat constructor. }
    rewrite Hshape in Hcalls.
    change (p ++ Info "Fetching repository statistics..."
              :: ReposGet (getInput h "github-token") o r :: rest ++ q)%list
      with (p ++ [Info "Fetching repository statistics..."]
              ++ ReposGet (getInput h "github-token") o r :: rest ++ q)%list
      in Hcalls.
    rewrite app_assoc in Hcalls.
    apply (split_unique no_fetch is_fetch fetch_exclusive) in Hcalls
      as (-> & [= <- <- <-] & ->); auto; [| exact I].
    repeat split; auto. now exists p.
Qed.

Lemma fetch_made_once_witness :
  let h := TestHosts.mock TestHosts.token_inputs in
  calls h = (firstn 8 (calls h)
               ++ ReposGet "test-token" "test-owner" "test-repo"
               :: skipn 9 (calls h))%list /\
  "test-token" = getInput h "github-token" /\
  context_repo h = Ok ("test-owner", "test-repo") /\
  (exists pre',
      firstn 8 (calls h)
      = (pre' ++ [Info "Fetching repository statistics..."])%list) /\
  Forall no_fetch (firstn 8 (calls h)) /\ Forall no_fetch (skipn 9 (calls h)).
Proof.
  split; [reflexivity |].
  exact (fetch_made_once (TestHosts.mock TestHosts.token_inputs)
           (firstn 8 (calls (TestHosts.mock TestHosts.token_inputs)))
           "test-token" "test-owner" "test-repo"
           (skipn 9 (calls (TestHosts.mock TestHosts.token_inputs)))
           eq_refl).
Defined.

(** X8. A run publishes [repo-stats] at most once, and only after a fetch
    that resolved: the value published is the JSON of the record built from
    the response of that fetch, and the calls between the fetch and the
    output are the five lines that log that record: "Repository: ", the
    labels of the stars, forks and open issues, and the label of the
    language, each followed by the value as a template literal prints it
    (the language as "Unknown" when it is missing). *)
Theorem stats_output_from_response (h : host) (pre : trace) (v : output_value)
    (post : trace) :
  calls h = (pre ++ SetOutput "repo-stats" v :: post)%list ->
  exists pre0 owner repo resp lines,
    pre = (pre0 ++ ReposGet (getInput h "github-token") owner repo
                :: map Info lines)%list /\
    repos_get h pre0 (getInput h "github-token") owner repo = Ok resp /\
    v = OJson (stats_of resp) /\
    stats_lines (stats_of resp) lines /\
    Forall not_stats_output pre /\ Forall not_stats_output post.
Proof.
  intros Hcalls.
  assert (Habsent : forall l, Forall not_stats_output l ->
                              calls h = l -> False).
  { intros l Hl Heq. rewrite Heq in Hcalls.
    exact (split_absent not_stats_output is_stats_output stats_output_exclusive
             l pre post (SetOutput "repo-stats" v) Hl eq_refl Hcalls). }
  destruct (run_fetch_block h)
    as [Hnone | (p & q & o & r & rest & Hshape & Hp & Hq & Hcontext & Hrest)].
  - exfalso. apply (Habsent (calls h)); [| reflexivity].
    now apply not_stats_call_no_output.
  - apply not_stats_call_no_output in Hp, Hq.
    assert (Hhead : Forall not_stats_output
                      (p ++ Info "Fetching repository statistics..."
                         :: [ReposGet (getInput h "github-token") o r])).
    { apply Forall_app. split; [assumption | repeat constructor]. }
    destruct Hrest as [(e & _ & ->) | (resp & lines & out & Hfetch & -> & Hout)].
    + exfalso. apply (Habsent (calls h)); [| reflexivity]. rewrite Hshape.
      apply Forall_app. split; [assumption |].
      repeat constructor; try exact I. assumption.
    + destruct Hout as [-> | [-> Hlen]].
      * exfalso. apply (Habsent (calls h)); [| reflexivity]. rewrite Hshape.
        apply Forall_app. split; [assumption |].
        constructor; [exact I |]. constructor; [exact I |].
        rewrite app_nil_r. apply Forall_app. split; [apply infos_no_output | assumption].
      * rewrite Hshape in Hcalls.
        assert (Hre : (p ++ Info "Fetching repository statistics..."
                         :: ReposGet (getInput h "github-token") o r
                         :: (map Info lines
                               ++ [SetOutput "repo-stats" (OJson (stats_of resp))]) ++ q
                       = ((p ++ [Info "Fetching repository statistics..."])
                            ++ ReposGet (getInput h "github-token") o r :: map Info lines)
                           ++ SetOutput "repo-stats" (OJson (stats_of resp)) :: q)%list).
        { rewrite <- !app_assoc. cbn [app]. rewrite <- ?app_assoc. reflexivity. }
        rewrite Hre in Hcalls.
        apply (split_unique not_stats_output is_stats_output stats_output_exclusive)
          in Hcalls as (-> & [= <-] & ->); auto; [| | reflexivity].
        -- exists (p ++ [Info "Fetching repository statistics..."])%list,
             o, r, resp, lines.
           repeat split; auto.
           apply Forall_app. split.
           ++ apply Forall_app. split; [assumption | repeat constructor].
           ++ constructor; [exact I | apply infos_no_output].
        -- apply Forall_app. split.
           ++ apply Forall_app. split; [assumption | repeat constructor].
           ++ constructor; [exact I | apply infos_no_output].
Qed.

(** ** The summary write (lines 182-193) *)

Section Renders.

Variable h : host.

Lemma renders_prefix {A : Type} (m : M A) (k : A -> M unit) :
  only no_summary m -> (forall a, renders h (k a)) -> renders h (bind m k).
Proof.
  intros Hm Hk tr. destruct (Hm tr) as (r & n1 & Hy & HP).
  unfold yields, bind in *. rewrite Hy. destruct r as [a | e0].
  - destruct (Hk a (tr ++ n1)%list) as (r2 & n2 & Hy2 & Hr).
    exists r2, (n1 ++ n2)%list. rewrite Hy2, app_assoc. split; [reflexivity |].
    intros pre hd t post Heq.
    apply app_eq_app in Heq as [l [[Hn1 Hrest] | [Hpre Hn2]]].
    + destruct l as [| c l]; simpl in Hrest.
      * subst n2. rewrite app_nil_r in Hn1. subst n1.
        destruct (Hr [] hd t post eq_refl) as (_ & Hpost & Hok).
        split; [assumption |]. split; [assumption |].
        intros u Hu. apply (Hok u). now rewrite app_nil_r.
      * inversion Hrest; subst. exfalso.
        exact (no_summary_split _ _ _ _ _ HP eq_refl).
    + subst pre. destruct (Hr l hd t post Hn2) as (Hl & Hpost & Hok).
      split; [apply Forall_app; now split |]. split; [assumption |].
      intros u Hu. apply (Hok u). now rewrite <- app_assoc.
  - exists (Throw e0), n1. split; [reflexivity |].
    intros pre hd t post Heq. exfalso.
    exact (no_summary_split _ _ _ _ _ HP Heq).
Qed.

Lemma write_summary_failed {A : Type} (t : table) (k : unit -> M A)
    (tr : trace) (e : exn) :
  summary_write h tr summary_heading t = Throw e ->
  bind (write_summary h t) k tr =
    bind (bind (info fallback_heading) (fun _ => for_of (skipn 1 t) log_row)) k
         (tr ++ [SummaryWrite summary_heading t])%list.
Proof.
  intros Hwrite.
  unfold bind, write_summary, try_catch, summary_addHeading_addTable_write.
  now rewrite Hwrite.
Qed.

Lemma renders_write_summary (t : table) :
  renders h (bind (write_summary h t) (fun _ => info completion_line)).
Proof.
  intros tr.
  assert (Hafter : only no_summary
                     (bind (bind (info fallback_heading)
                                 (fun _ => for_of (skipn 1 t) log_row))
                           (fun _ => info completion_line))).
  { unfold log_row. repeat only_step; exact I. }
  destruct (Hafter (tr ++ [SummaryWrite summary_heading t])%list)
    as (r & rest & Hy & Hrest).
  unfold yields in Hy.
  destruct (summary_write h tr summary_heading t) as [[] | e0] eqn:Hwrite.
  - exists (Ok tt), [SummaryWrite summary_heading t; Info completion_line].
    split.
    + unfold yields, bind, write_summary, try_catch,
        summary_addHeading_addTable_write, info.
      rewrite Hwrite. now rewrite <- app_assoc.
    + intros pre hd t' post Heq.
      apply first_summary in Heq as (-> & [= <- <-] & ->);
        [| repeat constructor].
      split; [constructor |]. split; [repeat constructor |].
      intros u _. now split.
  - exists r, (SummaryWrite summary_heading t :: rest).
    split.
    + unfold yields.
      rewrite (write_summary_failed _ _ _ e0 Hwrite), Hy, <- app_assoc.
      reflexivity.
    + intros pre hd t' post Heq.
      apply first_summary in Heq as (-> & [= <- <-] & ->); [| assumption].
      split; [constructor |]. split; [assumption |].
      intros u Hu. rewrite app_nil_r in Hu. congruence.
Qed.

Lemma renders_run_steps : renders h (run_steps h).
Proof.
  unfold run_steps.
  repeat (apply renders_prefix;
          [ unfold include_timestamp, fetch_stats, context_repo_owner,
              context_repo_repo, getRepoStats, report_stats;
            repeat only_step; exact I
          | intros ? ]).
  apply renders_write_summary.
Qed.

End Renders.

(** X10. A run writes the summary at most once.  When the write returns,
    the completion line is the only call that follows and the run ends
    without a failure report: the log fallback is not used. *)
Theorem summary_rendered (h : host) (pre : trace) (heading : string) (t : table)
    (post : trace) :
  calls h = (pre ++ SummaryWrite heading t :: post)%list ->
  Forall no_summary pre /\ Forall no_summary post /\
  forall u,
    summary_write h pre heading t = Ok u ->
    post = [Info completion_line] /\ run_steps h [] = (Ok tt, calls h).
Proof.
  intros Hcalls.
  destruct (renders_run_steps h []) as (r & new & Hy & Hr).
  unfold yields in Hy. simpl in Hy.
  pose proof (run_cases h r new Hy) as Hrun.
  unfold calls in *.
  destruct r as [[] | e0]; rewrite Hrun in *; simpl in *.
  - destruct (Hr pre heading t post Hcalls) as (Hpre & Hpost & Hok).
    split; [assumption |]. split; [assumption |].
    intros u Hu. split; [now apply (Hok u) | now rewrite Hy].
  - apply app_eq_app in Hcalls as [l [[Hnew Hrest] | [Hpre Hrest]]].
    + destruct l as [| c l]; simpl in Hrest; [inversion Hrest |].
      inversion Hrest; subst.
      destruct (Hr pre heading t l eq_refl) as (Hp & Hl & Hok).
      split; [assumption |].
      split; [apply Forall_app; split; [assumption | repeat constructor] |].
      intros u Hu. destruct (Hok u Hu) as [Habs _]. discriminate.
    + destruct l as [| c l]; simpl in Hrest; [inversion Hrest |].
      inversion Hrest as [[Hc Hnil]]. now destruct l.
Qed.

(** ** A response without its counts (lines 174-176) *)



(** What the block returns. *)
Lemma fetch_stats_result (h : host) (token : string) (tr tr' : trace)
    (repoStats : option RepoStats) :
  fetch_stats h token tr = (Ok repoStats, tr') ->
  (repoStats = None /\
   (tr' = tr \/
    exists owner repo e,
      repos_get h (tr ++ [Info "Fetching repository statistics..."])%list
        token owner repo = Throw e /\
      tr' = (tr ++ Info "Fetching repository statistics..."
                :: ReposGet token owner repo
                :: [Warning ("Failed to fetch repository stats: "
                             ++ message_of h e)])%list)) \/
  (exists owner repo resp rest,
      repoStats = Some (stats_of resp) /\
      repos_get h (tr ++ [Info "Fetching repository statistics..."])%list
        token owner repo = Ok resp /\
      tr' = (tr ++ Info "Fetching repository statistics..."
                :: ReposGet token owner repo :: rest)%list /\
      Forall no_fetch rest).
Proof.
  unfold fetch_stats, context_repo_owner, context_repo_repo.
  destruct (nonempty token); [| intros [= <- <-]; left; auto].
  destruct (context_repo h) as [[owner repo] | e]; [| discriminate].
  cbv [bind lift rbind fst snd].
  destruct (nonempty owner); [| intros [= <- <-]; left; auto].
  destruct (nonempty repo); [| intros [= <- <-]; left; auto].
  cbv [info ret]. rewrite getRepoStats_cases.
  destruct (repos_get h _ token owner repo) as [resp | e] eqn:Hfetch.
  - fold (stats_of resp).
    destruct (report_stats_shape h (stats_of resp)
                ((tr ++ [Info "Fetching repository statistics..."])
                   ++ [ReposGet token owner repo])%list)
      as (r & lines & out & Hreport & Hout & _).
    rewrite Hreport. destruct r as [[] | e]; [| discriminate].
    intros [= <- <-]. right.
    exists owner, repo, resp, (map Info lines ++ out)%list.
    split; [reflexivity |]. split; [assumption |]. split.
    + rewrite <- !app_assoc. reflexivity.
    + apply Forall_app. split; [apply infos_no_fetch |].
      destruct Hout as [-> | [-> _]]; repeat constructor.
  - intros [= <- <-]. left. split; [reflexivity |]. right.
    exists owner, repo, e. split; [assumption |].
    rewrite <- !app_assoc. reflexivity.
Qed.

Section Doomed.

Variable h : host.




End Doomed.



(** ** A context without a repository (line 145) *)

Section Dies.

Variable h : host.
Hypothesis Haccepts : accepts_outputs h.

Lemma passes_ret {A : Type} (a : A) : passes (ret a).
Proof. intros tr. exists a, []. unfold yields, ret. now rewrite app_nil_r. Qed.

Lemma passes_lift {A : Type} (a : A) : passes (lift (Ok a)).
Proof. intros tr. exists a, []. unfold yields, lift. now rewrite app_nil_r. Qed.

Lemma passes_info (s : string) : passes (info s).
Proof. intros tr. exists tt, [Info s]. split; [reflexivity | repeat constructor]. Qed.

Lemma passes_getCurrentTime : passes (getCurrentTime h).
Proof.
  intros tr. exists (date_now h tr), []. unfold yields, getCurrentTime.
  now rewrite app_nil_r.
Qed.

Lemma passes_setOutput (key : string) (v : output_value) :
  key <> "repo-stats" -> passes (setOutput h key v).
Proof.
  intros Hkey tr. exists tt, [SetOutput key v].
  unfold yields, setOutput. rewrite Haccepts.
  split; [reflexivity | repeat constructor; assumption].
Qed.

Lemma passes_bind {A B : Type} (m : M A) (k : A -> M B) :
  passes m -> (forall a, passes (k a)) -> passes (bind m k).
Proof.
  intros Hm Hk tr. destruct (Hm tr) as (a & n1 & Hy & HP).
  destruct (Hk a (tr ++ n1)%list) as (b & n2 & Hy2 & HP2).
  exists b, (n1 ++ n2)%list. unfold yields, bind in *.
  rewrite Hy, Hy2, app_assoc. split; [reflexivity |].
  apply Forall_app. now split.
Qed.

Lemma passes_include_timestamp (includeTime : bool) :
  passes (include_timestamp h includeTime).
Proof.
  unfold include_timestamp. destruct includeTime; [| apply passes_ret].
  apply passes_bind; [apply passes_getCurrentTime | intros currentTime].
  apply passes_bind; [apply passes_info | intros _].
  apply passes_bind; [apply passes_setOutput; discriminate | intros _].
  apply passes_ret.
Qed.

Lemma dies_prefix {A B : Type} (e : exn) (m : M A) (k : A -> M B) :
  passes m -> (forall a, dies e (k a)) -> dies e (bind m k).
Proof.
  intros Hm Hk tr. destruct (Hm tr) as (a & n1 & Hy & HP).
  destruct (Hk a (tr ++ n1)%list) as (n2 & Hy2 & HP2).
  exists (n1 ++ n2)%list. unfold yields, bind in *.
  rewrite Hy, Hy2, app_assoc. split; [reflexivity |].
  apply Forall_app. now split.
Qed.

Lemma dies_first {A B : Type} (e : exn) (m : M A) (k : A -> M B) :
  dies e m -> dies e (bind m k).
Proof.
  intros Hm tr. destruct (Hm tr) as (new & Hy & HP).
  exists new. unfold yields, bind in *. now rewrite Hy.
Qed.

Lemma dies_fetch_stats (e : exn) (token : string) :
  nonempty token = true -> context_repo h = Throw e ->
  dies e (fetch_stats h token).
Proof.
  intros Htoken Hcontext tr. exists [].
  unfold yields, fetch_stats, context_repo_owner, bind, lift.
  rewrite Htoken, Hcontext, app_nil_r. split; [reflexivity | constructor].
Qed.

Lemma dies_run_steps (e : exn) :
  token_present h -> context_repo h = Throw e -> dies e (run_steps h).
Proof.
  intros Htoken Hcontext. apply nonempty_true in Htoken.
  unfold run_steps.
  do 5 (apply dies_prefix; [apply passes_info | intros _]).
  change (createGreeting _ _) with (Ok (greeting_of h)).
  apply dies_prefix; [apply passes_lift | intros greeting].
  apply dies_prefix; [apply passes_info | intros _].
  apply dies_prefix; [apply passes_setOutput; discriminate | intros _].
  apply dies_prefix; [apply passes_include_timestamp | intros currentTime].
  apply dies_first. now apply dies_fetch_stats.
Qed.

End Dies.

(** X12. With a token, and outputs that are accepted, a run whose context
    throws when asked for the repository fails with that error: the greeting
    is published, no fetch is made, and the failure report carries the
    message of the error of the context. *)
Theorem context_error_fails_run (h : host) (e : exn) :
  accepts_outputs h -> token_present h -> context_repo h = Throw e ->
  exists tr,
    run_steps h [] = (Throw e, tr) /\
    calls h = (tr ++ [failure_report h e])%list /\
    In (SetOutput "message" (OStr (greeting_of h))) tr /\
    Forall not_stats_call tr.
Proof.
  intros Haccepts Htoken Hcontext.
  destruct (dies_run_steps h Haccepts e Htoken Hcontext []) as (tr & Hy & Htr).
  unfold yields in Hy. simpl in Hy.
  pose proof (run_cases h _ _ Hy) as Hrun. simpl in Hrun.
  exists tr. split; [assumption |].
  assert (Hcalls : calls h = (tr ++ [failure_report h e])%list)
    by (unfold calls; now rewrite Hrun).
  split; [assumption |]. split; [| assumption].
  destruct (run_opening h) as [post Hopening].
  assert (Hin : In (SetOutput "message" (OStr (greeting_of h))) (calls h)).
  { rewrite Hopening. apply in_or_app. right. now left. }
  rewrite Hcalls in Hin. apply in_app_or in Hin as [Hin | [Hin | []]];
    [assumption | discriminate].
Qed.

Lemma context_error_fails_run_witness :
  let h := MoreHosts.no_repository in
  let e := Error "context.repo requires a GITHUB_REPOSITORY environment variable like 'owner/repo'" in
  accepts_outputs h /\ token_present h /\ context_repo h = Throw e /\
  exists tr,
    run_steps h [] = (Throw e, tr) /\
    calls h = (tr ++ [failure_report h e])%list /\
    In (SetOutput "message" (OStr (greeting_of h))) tr /\
    Forall not_stats_call tr.
Proof.
  assert (Haccepts : accepts_outputs MoreHosts.no_repository)
    by (intros tr key v; reflexivity).
  assert (Htoken : token_present MoreHosts.no_repository)
    by (unfold token_present; discriminate).
  split; [exact Haccepts |]. split; [exact Htoken |]. split; [reflexivity |].
  exact (context_error_fails_run MoreHosts.no_repository _ Haccepts Htoken eq_refl).
Defined.

(** Witnesses of the properties of the statistics and of the summary. *)
Lemma stats_output_from_response_witness :
  let h := TestHosts.mock TestHosts.token_inputs in
  let v := OJson (stats_of {| data := TestHosts.mockRepoData |}) in
  calls h = (firstn 14 (calls h) ++ SetOutput "repo-stats" v
               :: skipn 15 (calls h))%list /\
  exists pre0 owner repo resp lines,
    firstn 14 (calls h)
      = (pre0 ++ ReposGet (getInput h "github-token") owner repo
              :: map Info lines)%list /\
    repos_get h pre0 (getInput h "github-token") owner repo = Ok resp /\
    v = OJson (stats_of resp) /\
    stats_lines (stats_of resp) lines /\
    Forall not_stats_output (firstn 14 (calls h)) /\
    Forall not_stats_output (skipn 15 (calls h)).
Proof.
  split; [reflexivity |].
  exact (stats_output_from_response (TestHosts.mock TestHosts.token_inputs)
           (firstn 14 (calls (TestHosts.mock TestHosts.token_inputs)))
           (OJson (stats_of {| data := TestHosts.mockRepoData |}))
           (skipn 15 (calls (TestHosts.mock TestHosts.token_inputs)))
           eq_refl).
Defined.

Lemma summary_rendered_witness :
  let h := TestHosts.mock TestHosts.default_inputs in
  let t := [ (HeaderCell "Field", HeaderCell "Value");
             (Cell (VStr "Greeting"), Cell (VStr "Hello, World!")) ] in
  calls h = (firstn 8 (calls h) ++ SummaryWrite summary_heading t
               :: skipn 9 (calls h))%list /\
  Forall no_summary (firstn 8 (calls h)) /\
  Forall no_summary (skipn 9 (calls h)) /\
  forall u,
    summary_write h (firstn 8 (calls h)) summary_heading t = Ok u ->
    skipn 9 (calls h) = [Info completion_line] /\
    run_steps h [] = (Ok tt, calls h).
Proof.
  split; [reflexivity |].
  exact (summary_rendered (TestHosts.mock TestHosts.default_inputs)
           (firstn 8 (calls (TestHosts.mock TestHosts.default_inputs)))
           summary_heading
           [ (HeaderCell "Field", HeaderCell "Value");
             (Cell (VStr "Greeting"), Cell (VStr "Hello, World!")) ]
           (skipn 9 (calls (TestHosts.mock TestHosts.default_inputs)))
           eq_refl).
Defined.

Lemma timestamp_published_witness :
  let h := TestHosts.mock TestHosts.time_inputs in
  getBooleanInput h "include-time" = true /\
  core_setOutput h (map Info (announcement h)) "message" (OStr (greeting_of h))
    = Ok tt /\
  exists post,
    calls h = ((map Info (announcement h)
                  ++ [SetOutput "message" (OStr "Hello, World!")])
                 ++ Info "Current time: 2023-01-01T12:00:00.000Z"
                 :: SetOutput "time" (OStr "2023-01-01T12:00:00.000Z") :: post)%list.
Proof.
  split; [reflexivity |]. split; [reflexivity |].
  exact (proj2 (timestamp_published (TestHosts.mock TestHosts.time_inputs))
           eq_refl tt eq_refl).
Defined.

(** ** The table of the summary (lines 164-184) *)

Section Tabled.
Variable h : host.

Lemma tabled_prefix {A : Type} (Pre : trace -> Prop) (Post : A -> trace -> Prop)
    (m : M A) (k : A -> M unit) :
  leads Pre m Post -> (forall a, tabled h (Post a) (k a)) ->
  tabled h Pre (bind m k).
Proof.
  intros Hm Hk tr Htr. destruct (Hm tr Htr) as (r & n1 & Hy & HP & Hpost).
  unfold yields, bind in *. rewrite Hy. destruct r as [a | e0].
  - destruct (Hk a (tr ++ n1)%list (Hpost a eq_refl)) as (r2 & n2 & Hy2 & Hr).
    exists r2, (n1 ++ n2)%list. rewrite Hy2, app_assoc. split; [reflexivity |].
    intros pre hd t post Heq.
    apply app_eq_app in Heq as [l [[Hn1 Hrest] | [Hpre Hn2]]].
    + destruct l as [| c l]; simpl in Hrest.
      * subst n2. rewrite app_nil_r in Hn1. subst n1.
        destruct (Hr [] hd t post eq_refl) as (Hhd & Ht).
        rewrite app_nil_r in Ht. now split.
      * inversion Hrest; subst. exfalso.
        exact (no_summary_split _ _ _ _ _ HP eq_refl).
    + subst pre. destruct (Hr l hd t post Hn2) as (Hhd & Ht).
      rewrite <- app_assoc in Ht. now split.
  - exists (Throw e0), n1. split; [reflexivity |].
    intros pre hd t post Heq. exfalso.
    exact (no_summary_split _ _ _ _ _ HP Heq).
Qed.

Lemma tabled_lift {A : Type} (Pre : trace -> Prop) (r : result A) (k : A -> M unit) :
  (forall a, r = Ok a -> tabled h Pre (k a)) -> tabled h Pre (bind (lift r) k).
Proof.
  intros Hk. destruct r as [a | e].
  - exact (Hk a eq_refl).
  - intros tr _. exists (Throw e), []. split.
    + unfold yields, bind, lift. now rewrite app_nil_r.
    + intros [| c pre] hd t post Heq; discriminate Heq.
Qed.

Lemma tabled_weaken (Pre Pre' : trace -> Prop) (m : M unit) :
  (forall tr, Pre tr -> Pre' tr) -> tabled h Pre' m -> tabled h Pre m.
Proof. intros Himp Hm tr Htr. exact (Hm tr (Himp tr Htr)). Qed.

Lemma leads_only (P : call -> Prop) (Pre : trace -> Prop) {A : Type} (m : M A)
    (Post : A -> trace -> Prop) :
  only P m -> (forall c, P c -> no_summary c) ->
  (forall tr new a, Pre tr -> Forall P new -> Post a (tr ++ new)%list) ->
  leads Pre m Post.
Proof.
  intros Hm HP Hpost tr Htr. destruct (Hm tr) as (r & new & Hy & Hnew).
  exists r, new. split; [assumption |]. split.
  - eapply Forall_impl; [exact HP | exact Hnew].
  - intros a _. now apply Hpost.
Qed.

Lemma leads_quiet {A : Type} (m : M A) :
  only quiet m ->
  leads (Forall not_stats_output) m (fun _ => Forall not_stats_output).
Proof.
  intros Hm. apply (leads_only quiet); [assumption | now intros c [Hc _] |].
  intros tr new _ Htr Hnew. apply Forall_app. split; [assumption |].
  eapply Forall_impl; [| exact Hnew]. now intros c [_ Hc].
Qed.

Lemma leads_include_timestamp (includeTime : bool) :
  leads (Forall not_stats_output) (include_timestamp h includeTime)
    (fun currentTime tr =>
       Forall not_stats_output tr /\
       (includeTime = true ->
        exists time, currentTime = VStr time /\
                     In (SetOutput "time" (OStr time)) tr)).
Proof.
  intros tr Htr. destruct includeTime.
  - cbv [include_timestamp bind getCurrentTime info setOutput ret yields].
    exists (match core_setOutput h
                    (tr ++ [Info ("Current time: " ++ date_now h tr)])%list
                    "time" (OStr (date_now h tr))
            with Ok _ => Ok (VStr (date_now h tr)) | Throw e => Throw e end),
           [Info ("Current time: " ++ date_now h tr);
            SetOutput "time" (OStr (date_now h tr))].
    split; [| split].
    + rewrite <- app_assoc. now destruct (core_setOutput h _ _ _).
    + repeat constructor.
    + intros a Ha. split.
      * apply Forall_app. split; [assumption |].
        repeat constructor. discriminate.
      * intros _. exists (date_now h tr). split.
        -- destruct (core_setOutput h _ _ _); now inversion Ha.
        -- apply in_or_app. right. right. now left.
  - exists (Ok VNull), []. split; [| split].
    + unfold yields, include_timestamp, ret. now rewrite app_nil_r.
    + constructor.
    + intros a _. rewrite app_nil_r. split; [assumption | discriminate].
Qed.

(** A record returned by the block has been published. *)
Lemma fetch_stats_published (token : string) (tr tr' : trace) (stats : RepoStats) :
  fetch_stats h token tr = (Ok (Some stats), tr') ->
  exists new, tr' = (tr ++ new)%list /\
              In (SetOutput "repo-stats" (OJson stats)) new.
Proof.
  unfold fetch_stats, context_repo_owner, context_repo_repo.
  destruct (nonempty token); [| discriminate].
  destruct (context_repo h) as [[owner repo] | e]; [| discriminate].
  cbv [bind lift rbind fst snd].
  destruct (nonempty owner); [| discriminate].
  destruct (nonempty repo); [| discriminate].
  cbv [info ret]. rewrite getRepoStats_cases.
  destruct (repos_get h _ token owner repo) as [resp | e] eqn:Hfetch;
    [| discriminate].
  fold (stats_of resp).
  destruct (report_stats_shape h (stats_of resp)
              ((tr ++ [Info "Fetching repository statistics..."])
                 ++ [ReposGet token owner repo])%list)
    as (r & lines & out & Hreport & Hout & Hreturn).
  rewrite Hreport. destruct r as [[] | e]; [| discriminate].
  intros [= <- <-].
  destruct Hout as [-> | [-> _]]; [now destruct (Hreturn tt eq_refl) |].
  eexists. split; [rewrite <- !app_assoc; reflexivity |].
  cbn [app]. right. right. apply in_or_app. right. now left.
Qed.

Lemma leads_fetch_stats (K : trace -> Prop) (token : string) :
  (forall tr more, K tr -> K (tr ++ more)%list) ->
  leads (fun tr => Forall not_stats_output tr /\ K tr) (fetch_stats h token)
    (fun repoStats tr =>
       K tr /\
       match repoStats with
       | None => Forall not_stats_output tr
       | Some stats => In (SetOutput "repo-stats" (OJson stats)) tr
       end).
Proof.
  intros Hmono tr [Htr HK].
  assert (Hm : only no_summary (fetch_stats h token)).
  { unfold fetch_stats, context_repo_owner, context_repo_repo.
    repeat first
      [ apply only_getRepoStats; intros
      | apply only_report_stats; intros
      | only_step ];
    exact I. }
  destruct (Hm tr) as (r & new & Hy & Hnew). exists r, new.
  split; [assumption |]. split; [assumption |].
  intros [stats |] ->; (split; [now apply Hmono |]); unfold yields in Hy.
  - apply fetch_stats_published in Hy as (new' & Heq & Hin).
    apply app_inv_head in Heq. subst new'. apply in_or_app. now right.
  - apply fetch_stats_result in Hy
      as [[_ [Heq | (owner & repo & e & _ & Heq)]]
         | (owner & repo & resp & rest & Hsome & _)];
      [| | discriminate Hsome].
    + now rewrite Heq.
    + rewrite Heq. apply Forall_app. split; [assumption |].
      repeat constructor.
Qed.

Lemma summaryTable_table_of_run (tr : trace) (currentTime : value)
    (repoStats : option RepoStats) (t : table) :
  (getBooleanInput h "include-time" = true ->
   exists time, currentTime = VStr time /\ In (SetOutput "time" (OStr time)) tr) ->
  match repoStats with
  | None => Forall not_stats_output tr
  | Some stats => In (SetOutput "repo-stats" (OJson stats)) tr
  end ->
  summaryTable (greeting_of h) (getBooleanInput h "include-time")
    currentTime repoStats = Ok t ->
  table_of_run h tr t.
Proof.
  intros Htime Hstats. unfold summaryTable, table_of_run.
  assert (Hrows : forall more,
             t = ([ (HeaderCell "Field", HeaderCell "Value");
                    (Cell (VStr "Greeting"), Cell (VStr (greeting_of h))) ]
                    ++ (if getBooleanInput h "include-time"
                        then [ (Cell (VStr "Timestamp"), Cell currentTime) ]
                        else [])
                    ++ more)%list ->
             exists time_rows,
               t = ((HeaderCell "Field", HeaderCell "Value")
                      :: (Cell (VStr "Greeting"), Cell (VStr (greeting_of h)))
                      :: time_rows ++ more)%list /\
               (if getBooleanInput h "include-time"
                then exists time,
                    In (SetOutput "time" (OStr time)) tr /\
                    time_rows = [ (Cell (VStr "Timestamp"), Cell (VStr time)) ]
                else time_rows = [])).
  { intros more ->. destruct (getBooleanInput h "include-time").
    - destruct (Htime eq_refl) as (time & -> & Hin).
      eexists. split; [reflexivity |]. now exists time.
    - exists []. now split. }
  destruct repoStats as [stats |]; cbn [rbind].
  - destruct (toString (stars stats)) as [s1 |] eqn:H1; [| discriminate].
    destruct (toString (forks stats)) as [s2 |] eqn:H2; [| discriminate].
    destruct (toString (issues stats)) as [s3 |] eqn:H3; [| discriminate].
    cbn [rbind]. intros [= Ht]. symmetry in Ht.
    destruct (Hrows _ Ht) as (time_rows & Heq & Hrow).
    exists time_rows. eexists. split; [exact Heq |]. split; [exact Hrow |].
    right. exists stats. split; [assumption |]. now exists s1, s2, s3.
  - intros [= Ht]. symmetry in Ht.
    destruct (Hrows _ Ht) as (time_rows & Heq & Hrow).
    exists time_rows, []. split; [exact Heq |]. split; [exact Hrow |].
    now left.
Qed.

Lemma tabled_write_summary (t : table) :
  tabled h (fun tr => table_of_run h tr t)
    (bind (write_summary h t) (fun _ => info completion_line)).
Proof.
  intros tr Htable.
  assert (Hafter : only no_summary
                     (bind (bind (info fallback_heading)
                                 (fun _ => for_of (skipn 1 t) log_row))
                           (fun _ => info completion_line))).
  { unfold log_row. repeat only_step; exact I. }
  destruct (Hafter (tr ++ [SummaryWrite summary_heading t])%list)
    as (r & rest & Hy & Hrest).
  unfold yields in Hy.
  assert (Hend : forall rest r',
             Forall no_summary rest ->
             yields (bind (write_summary h t) (fun _ => info completion_line))
               tr r' (SummaryWrite summary_heading t :: rest) ->
             exists r new,
               yields (bind (write_summary h t) (fun _ => info completion_line))
                 tr r new /\
               forall pre hd t' post,
                 new = (pre ++ SummaryWrite hd t' :: post)%list ->
                 hd = summary_heading /\ table_of_run h (tr ++ pre)%list t').
  { intros rest0 r' Hrest0 Hy0. exists r', (SummaryWrite summary_heading t :: rest0).
    split; [assumption |]. intros pre hd t' post Heq.
    apply first_summary in Heq as (-> & [= <- <-] & ->); [| assumption].
    rewrite app_nil_r. now split. }
  destruct (summary_write h tr summary_heading t) as [[] | e0] eqn:Hwrite.
  - apply (Hend [Info completion_line] (Ok tt)); [repeat constructor |].
    unfold yields, bind, write_summary, try_catch,
      summary_addHeading_addTable_write, info.
    rewrite Hwrite. now rewrite <- app_assoc.
  - apply (Hend rest r); [assumption |].
    unfold yields.
    rewrite (write_summary_failed _ _ _ _ e0 Hwrite), Hy, <- app_assoc.
    reflexivity.
Qed.

Lemma tabled_run_steps : tabled h (Forall not_stats_output) (run_steps h).
Proof.
  unfold run_steps.
  do 5 (eapply tabled_prefix;
        [ apply leads_quiet, only_info; split; exact I | intros ?; cbv beta ]).
  apply tabled_lift. intros greeting [= <-]. fold (greeting_of h).
  eapply tabled_prefix;
    [ apply leads_quiet, only_info; split; exact I | intros ?; cbv beta ].
  eapply tabled_prefix;
    [ apply leads_quiet, only_setOutput; split; [exact I | discriminate]
    | intros ?; cbv beta ].
  eapply tabled_prefix; [apply leads_include_timestamp | intros currentTime].
  eapply tabled_prefix.
  { apply (leads_fetch_stats
             (fun tr => getBooleanInput h "include-time" = true ->
                        exists time, currentTime = VStr time /\
                                     In (SetOutput "time" (OStr time)) tr)).
    intros tr more Hk Hflag. destruct (Hk Hflag) as (time & Heq & Hin).
    exists time. split; [assumption |]. apply in_or_app. now left. }
  intros repoStats.
  eapply tabled_prefix.
  { apply (leads_only quiet _ _
             (fun _ tr =>
                (getBooleanInput h "include-time" = true ->
                 exists time, currentTime = VStr time /\
                              In (SetOutput "time" (OStr time)) tr) /\
                match repoStats with
                | None => Forall not_stats_output tr
                | Some stats => In (SetOutput "repo-stats" (OJson stats)) tr
                end)).
    - apply only_setSecret. split; exact I.
    - now intros c [Hc _].
    - intros tr new _ [Htime Hstats] Hnew. split.
      + intros Hflag. destruct (Htime Hflag) as (time & Heq & Hin).
        exists time. split; [assumption |]. apply in_or_app. now left.
      + destruct repoStats as [stats |].
        * apply in_or_app. now left.
        * apply Forall_app. split; [assumption |].
          eapply Forall_impl; [| exact Hnew]. now intros c [_ Hc]. }
  intros ?; cbv beta. apply tabled_lift. intros t Ht.
  eapply tabled_weaken; [| apply tabled_write_summary].
  intros tr [Htime Hstats].
  exact (summaryTable_table_of_run tr currentTime repoStats t Htime Hstats Ht).
Qed.

End Tabled.

Lemma snoc_split (l pre post : trace) (c d : call) :
  (l ++ [c] = pre ++ d :: post)%list -> c <> d ->
  exists post', post = (post' ++ [c])%list /\ l = (pre ++ d :: post')%list.
Proof.
  intros Heq Hcd.
  destruct (exists_last (l := d :: post)) as (body & x & Hlast); [discriminate |].
  rewrite Hlast, app_assoc in Heq. apply app_inj_tail in Heq as [-> <-].
  destruct body as [| d' body]; simpl in Hlast.
  - inversion Hlast; subst. congruence.
  - inversion Hlast; subst. now exists body.
Qed.

(** X9. Every summary a run writes has the heading of line 184.  Its
    table is the header row, the row of the greeting, then the Timestamp
    row exactly when [include-time] is true, with the time that was
    published as the [time] output, and then either no further row, when no
    [repo-stats] output was made before the write, or the rows Repository,
    Stars, Forks, Open Issues and Language of the record that was published
    as [repo-stats], the counts printed by [.toString()] and the language
    as "Unknown" when it is missing. *)
Theorem summary_table_of_run (h : host) (pre : trace) (heading : string)
    (t : table) (post : trace) :
  calls h = (pre ++ SummaryWrite heading t :: post)%list ->
  heading = summary_heading /\ table_of_run h pre t.
Proof.
  intros Hcalls.
  destruct (tabled_run_steps h [] (Forall_nil _)) as (r & new & Hy & Htable).
  unfold yields in Hy. cbn [app] in Hy.
  pose proof (run_cases h r new Hy) as Hrun.
  unfold calls in Hcalls. destruct r as [[] | e].
  - rewrite Hrun in Hcalls. cbn [snd] in Hcalls.
    exact (Htable pre heading t post Hcalls).
  - rewrite Hrun in Hcalls. cbn [snd] in Hcalls.
    apply snoc_split in Hcalls as (post' & _ & Hnew); [| discriminate].
    exact (Htable pre heading t post' Hnew).
Qed.

Lemma summary_table_of_run_witness :
  let h := TestHosts.mock TestHosts.token_inputs in
  let t := [ (HeaderCell "Field", HeaderCell "Value");
             (Cell (VStr "Greeting"), Cell (VStr "Hello, World!"));
             (Cell (VStr "Repository"), Cell (VStr "test-owner/test-repo"));
             (Cell (VStr label_stars), Cell (VStr "42"));
             (Cell (VStr label_forks), Cell (VStr "7"));
             (Cell (VStr label_issues), Cell (VStr "3"));
             (Cell (VStr label_language), Cell (VStr "JavaScript")) ] in
  calls h = (firstn 16 (calls h) ++ SummaryWrite summary_heading t
               :: skipn 17 (calls h))%list /\
  summary_heading = summary_heading /\ table_of_run h (firstn 16 (calls h)) t.
Proof.
  split; [reflexivity |].
  exact (summary_table_of_run (TestHosts.mock TestHosts.token_inputs)
           (firstn 16 (calls (TestHosts.mock TestHosts.token_inputs)))
           summary_heading
           [ (HeaderCell "Field", HeaderCell "Value");
             (Cell (VStr "Greeting"), Cell (VStr "Hello, World!"));
             (Cell (VStr "Repository"), Cell (VStr "test-owner/test-repo"));
             (Cell (VStr label_stars), Cell (VStr "42"));
             (Cell (VStr label_forks), Cell (VStr "7"));
             (Cell (VStr label_issues), Cell (VStr "3"));
             (Cell (VStr label_language), Cell (VStr "JavaScript")) ]
           (skipn 17 (calls (TestHosts.mock TestHosts.token_inputs)))
           eq_refl).
Defined.
